(** * Library management client: the conditional response cache of [apiRequest],
      and the inventory rules of the book store.

    The first part embeds the cache layer of the single-page client
    ([apiCache], [getCachedResponse], [setCachedResponse], [clearCache] and
    [apiRequest]).  The JavaScript module keeps its state in globals (the
    [apiCache] map, [localStorage], the page); here that state is one record,
    [Client], passed explicitly.  [Date.now()] and [fetch] are supplied by a
    [World].  Around it come the session functions, the logout handler, the
    alerts, the cache status table and the endpoints the page asks for.  The
    second part models the inventory rules of the server. *)

From Stdlib Require Import ZArith Lia.
From stdpp Require Import gmap strings list fin_maps.

Local Open Scope Z_scope.

(* ===================================================================== *)
(** ** JavaScript strings *)
(* ===================================================================== *)

(** A JavaScript string is truthy exactly when it is not empty. *)
Definition truthy (s : string) : bool :=
  match s with
  | EmptyString => false
  | String _ _ => true
  end.

(** [s.includes(pattern)]: [pattern] occurs in [s] as a contiguous run. *)
Fixpoint includes (s pattern : string) : bool :=
  String.prefix pattern s ||
  match s with
  | EmptyString => false
  | String _ s' => includes s' pattern
  end.

(** [arr.includes(x)] on an array of strings. *)
Definition array_includes (arr : list string) (x : string) : bool :=
  existsb (String.eqb x) arr.

(* ===================================================================== *)
(** ** The cache and the client state *)
(* ===================================================================== *)

Section Client.

(** The parsed JSON value of a response body; the cache never looks inside. *)
Context {Payload : Type}.

(** [{ data: {...}, etag: "...", timestamp: ... }]; [timestamp] is a
    [Date.now()] value, in milliseconds. *)
Record CacheEntry := {
  data : Payload;
  etag : string;
  timestamp : Z
}.

(** The [options] argument of [apiRequest], and the [config] handed to
    [fetch]: an absent [method], [headers] or [body] is [undefined]. *)
Record Options := {
  method : option string;
  headers : gmap string string;
  body : option string
}.

Record Request := {
  url : string;
  config : Options
}.

(** What [fetch] resolves to.  [json] is the outcome of [response.json()]:
    the parsed body, or the message of the error it throws. *)
Record Response := {
  status : Z;
  hdr_ETag : option string;
  hdr_CacheControl : option string;
  json : string + Payload
}.

(** [response.ok]: the status is in the range 200-299. *)
Definition ok (r : Response) : bool :=
  (200 <=? status r) && (status r <=? 299).

(** [fetch] either rejects (with an error message) or resolves. *)
Inductive FetchResult :=
  | Rejects (message : string)
  | Resolves (r : Response).

(** The [response] member of what [apiRequest] returns: the real response, or
    the literal [{ status: 200, ok: true }] built on a 304. *)
Inductive ReturnedResponse :=
  | Synthetic200
  | Real (r : Response).

Record Returned := {
  response : ReturnedResponse;
  result : Payload
}.

Definition returned_ok (r : ReturnedResponse) : bool :=
  match r with
  | Synthetic200 => true
  | Real r => ok r
  end.

(** Effects on the page. *)
Inductive UiEvent :=
  | Alert (message type : string)
  | SwitchView (viewName : string).

(** The module's state: the [apiCache] map, [localStorage], the effects on
    the page in order, and the requests handed to [fetch] in order. *)
Record Client := {
  apiCache : gmap string CacheEntry;
  localStorage : gmap string string;
  ui : list UiEvent;
  network : list Request
}.

Definition with_cache (c : gmap string CacheEntry) (st : Client) : Client :=
  {| apiCache := c; localStorage := localStorage st;
     ui := ui st; network := network st |}.

(** The clock and the server, as one call of [apiRequest] sees them: the
    three readings of [Date.now()] (at the lookup before the request, at the
    lookup on a 304, and when a response is stored) and the answer of
    [fetch] to the request. *)
Record World := {
  t_lookup : Z;
  fetch : Request -> FetchResult;
  t_response : Z;
  t_store : Z
}.

(** *** Cache management *)

Definition default_maxAge : Z := 60.

(** [age > maxAge] for [age = (Date.now() - cached.timestamp) / 1000].  Both
    readings are whole milliseconds and [maxAge] is a whole number of
    seconds, so the comparison is the one below. *)
Definition expired (now : Z) (cached : CacheEntry) (maxAge : Z) : bool :=
  1000 * maxAge <? now - timestamp cached.

Definition getCachedResponse (now : Z) (url : string) (maxAge : Z)
    (c : gmap string CacheEntry) : gmap string CacheEntry * option CacheEntry :=
  match c !! url with
  | None => (c, None)
  | Some cached =>
      if expired now cached maxAge
      then (delete url c, None)
      else (c, Some cached)
  end.

Definition setCachedResponse (now : Z) (url : string) (d : Payload)
    (e : string) (c : gmap string CacheEntry) : gmap string CacheEntry :=
  <[url := {| data := d; etag := e; timestamp := now |}]> c.

(** [for (const [key] of apiCache) if (key.includes(pattern)) apiCache.delete(key)]:
    the keys are visited one by one and the matching ones deleted from the
    map being iterated. *)
Definition clear_matching (pattern : string) (keys : list string)
    (c : gmap string CacheEntry) : gmap string CacheEntry :=
  fold_left (fun acc key => if includes key pattern then delete key acc else acc)
            keys c.

(** [clearCache(pattern = null)]: [None] is [null] or a missing argument;
    the empty string is falsy too. *)
Definition clearCache (pattern : option string)
    (c : gmap string CacheEntry) : gmap string CacheEntry :=
  match pattern with
  | None => ∅
  | Some p =>
      if truthy p
      then clear_matching p (map fst (map_to_list c)) c
      else ∅
  end.

(** *** Authentication *)

Definition getToken (st : Client) : option string :=
  localStorage st !! "jwt_token".

Definition removeToken (st : Client) : Client :=
  {| apiCache := apiCache st;
     localStorage := delete "username" (delete "jwt_token" (localStorage st));
     ui := ui st; network := network st |}.

(** *** The page *)

Definition showAlert (message type : string) (st : Client) : Client :=
  {| apiCache := apiCache st; localStorage := localStorage st;
     ui := ui st ++ [Alert message type]; network := network st |}.

(** [switchView('login')] changes the page only: it loads data for the
    ['books'] and ['borrow-records'] views, not for ['login']. *)
Definition switchView_login (st : Client) : Client :=
  {| apiCache := apiCache st; localStorage := localStorage st;
     ui := ui st ++ [SwitchView "login"]; network := network st |}.

(** *** The request helper *)

Definition API_BASE_URL : string := "http://localhost:5000/api".

(** [!options.method || options.method === 'GET'] *)
Definition is_get (options : Options) : bool :=
  match method options with
  | None => true
  | Some m => negb (truthy m) || String.eqb m "GET"
  end.

(** [options.method && ['POST', 'PUT', 'DELETE'].includes(options.method)] *)
Definition is_mutation (options : Options) : bool :=
  match method options with
  | None => false
  | Some m => truthy m && array_includes ["POST"; "PUT"; "DELETE"] m
  end.

(** [{ ...options, headers: { 'Content-Type': 'application/json',
    ...options.headers } }], then the bearer token when there is one: the
    caller's headers win over the default content type. *)
Definition base_config (options : Options) (st : Client) : Options :=
  let h := headers options ∪ {[ "Content-Type" := "application/json" ]} in
  {| method := method options;
     headers :=
       match getToken st with
       | Some token =>
           if truthy token
           then <["Authorization" := "Bearer " +:+ token]> h
           else h
       | None => h
       end;
     body := body options |}.

Definition set_header (name value : string) (cfg : Options) : Options :=
  {| method := method cfg;
     headers := <[name := value]> (headers cfg);
     body := body cfg |}.

(** Everything [apiRequest] does up to and including the call of [fetch]:
    for a GET the cache is consulted (which may purge an expired entry) and
    the conditional header added; the request is then issued in every
    case. *)
Definition send (w : World) (endpoint : string) (options : Options)
    (st : Client) : Client * Request :=
  let fullUrl := API_BASE_URL +:+ endpoint in
  let cfg := base_config options st in
  let '(c, cfg) :=
    if is_get options then
      let '(c, cached) :=
        getCachedResponse (t_lookup w) fullUrl default_maxAge (apiCache st) in
      match cached with
      | Some e =>
          if truthy (etag e)
          then (c, set_header "If-None-Match" (etag e) cfg)
          else (c, cfg)
      | None => (c, cfg)
      end
    else (apiCache st, cfg) in
  let req := {| url := fullUrl; config := cfg |} in
  ({| apiCache := c; localStorage := localStorage st;
      ui := ui st; network := network st ++ [req] |}, req).

(** The [catch] block. *)
Definition connection_error (message : string) (st : Client)
    : Client * option Returned :=
  (showAlert ("Connection error: " +:+ message) "error" st, None).

(** The cache invalidation after a mutation. *)
Definition invalidate (endpoint : string) (options : Options)
    (c : gmap string CacheEntry) : gmap string CacheEntry :=
  if is_mutation options then
    if includes endpoint "/books" then
      clearCache (Some "/statistics") (clearCache (Some "/books") c)
    else if includes endpoint "/borrow-records" then
      clearCache (Some "/statistics")
        (clearCache (Some "/books") (clearCache (Some "/borrow-records") c))
    else c
  else c.

(** What follows [await response.json()] once the body has been parsed.
    (The [max-age] read from [Cache-Control] is only logged; the entry is
    stored without it.) *)
Definition on_body (w : World) (endpoint : string) (options : Options)
    (r : Response) (parsed : Payload) (st : Client) : Client * option Returned :=
  let fullUrl := API_BASE_URL +:+ endpoint in
  if status r =? 401 then
    (switchView_login
       (with_cache (clearCache None (apiCache st))
          (removeToken
             (showAlert "Session expired. Please login again." "error" st))),
     None)
  else
    let c1 :=
      if ok r && is_get options then
        match hdr_ETag r with
        | Some e =>
            if truthy e
            then setCachedResponse (t_store w) fullUrl parsed e (apiCache st)
            else apiCache st
        | None => apiCache st
        end
      else apiCache st in
    (with_cache (invalidate endpoint options c1) st,
     Some {| response := Real r; result := parsed |}).

(** Everything [apiRequest] does once [fetch] has settled. *)
Definition receive (w : World) (endpoint : string) (options : Options)
    (answer : FetchResult) (st : Client) : Client * option Returned :=
  let fullUrl := API_BASE_URL +:+ endpoint in
  match answer with
  | Rejects message => connection_error message st
  | Resolves r =>
      let '(c, cached) :=
        if status r =? 304
        then getCachedResponse (t_response w) fullUrl default_maxAge (apiCache st)
        else (apiCache st, None) in
      let st1 := with_cache c st in
      match cached with
      | Some e =>
          (st1, Some {| response := Synthetic200; result := data e |})
      | None =>
          match json r with
          | inl message => connection_error message st1
          | inr parsed => on_body w endpoint options r parsed st1
          end
      end
  end.

(** One call of [apiRequest], run to completion with nothing else touching
    the client in between. *)
Definition apiRequest (w : World) (endpoint : string) (options : Options)
    (st : Client) : Client * option Returned :=
  let '(st1, req) := send w endpoint options st in
  receive w endpoint options (fetch w req) st1.

(** What a settled [fetch] gives [apiRequest] to store: the parsed body and
    the ETag of a successful (2xx) answer to a GET that carries a non-empty
    ETag header; nothing otherwise. *)
Definition cacheable (options : Options) (answer : FetchResult)
    : option (Payload * string) :=
  match answer with
  | Rejects _ => None
  | Resolves r =>
      match json r, hdr_ETag r with
      | inr parsed, Some e =>
          if is_get options && ok r && truthy e then Some (parsed, e) else None
      | _, _ => None
      end
  end.

End Client.

Arguments CacheEntry : clear implicits.
Arguments Response : clear implicits.
Arguments FetchResult : clear implicits.
Arguments ReturnedResponse : clear implicits.
Arguments Returned : clear implicits.
Arguments Client : clear implicits.
Arguments World : clear implicits.

(* ===================================================================== *)
(** ** The rest of the client: session, alerts, cache status, call sites *)
(* ===================================================================== *)

(** [showAlert] puts the message in the page as HTML only for an ['info']
    alert whose message includes ['<'] ([alertDiv.innerHTML = message]);
    every other alert is put there as text ([alertDiv.textContent]). *)
Definition uses_innerHTML (message type : string) : bool :=
  String.eqb type "info" && includes message "<".

Definition rendered_as_html (ev : UiEvent) : bool :=
  match ev with
  | Alert message type => uses_innerHTML message type
  | SwitchView _ => false
  end.

Fixpoint string_drop (n : nat) (s : string) : string :=
  match n, s with
  | O, _ => s
  | S n', String _ s' => string_drop n' s'
  | S _, EmptyString => EmptyString
  end.

(** [s.replace(pattern, '')] for a string [pattern]: the first occurrence
    of [pattern] is cut out of [s]. *)
Fixpoint remove_first (s pattern : string) : string :=
  if String.prefix pattern s then string_drop (String.length pattern) s
  else
    match s with
    | EmptyString => EmptyString
    | String a s' => String a (remove_first s' pattern)
    end.

(** The URL column of the cache status table:
    [url.replace(API_BASE_URL, '')]. *)
Definition shortUrl (url : string) : string :=
  remove_first url API_BASE_URL.

(** A run of decimal digits, as a template literal renders an identifier or
    a page number. *)
Definition digit (a : Ascii.ascii) : bool :=
  let n := Ascii.nat_of_ascii a in (48 <=? n)%nat && (n <=? 57)%nat.

Fixpoint decimal (s : string) : bool :=
  match s with
  | EmptyString => true
  | String a s' => digit a && decimal s'
  end.

(** The endpoints the page asks for.  Each argument is the string the
    template literal makes of the value ([`/books/${bookId}`] and so on). *)
Definition loadDashboard_endpoint : string := "/statistics".

Definition loadBooks_endpoint (page : string) : string :=
  "/books?page=" +:+ page +:+ "&per_page=10".

Definition book_endpoint (bookId : string) : string :=
  "/books/" +:+ bookId.

Definition showBorrowBookForm_endpoint : string :=
  "/books?available_only=true&per_page=100".

(** [loadBorrowRecords]: the status filter is added when it is not empty. *)
Definition loadBorrowRecords_endpoint (page status : string) : string :=
  "/borrow-records?page=" +:+ page +:+ "&per_page=10"
  +:+ (if truthy status then "&status=" +:+ status else "").

Definition returnBook_endpoint (recordId : string) : string :=
  "/borrow-records/" +:+ recordId +:+ "/return".

(** The keys that the invalidation after a mutation of [endpoint] deletes:
    the [if] / [else if] of [apiRequest], read as a test on the key. *)
Definition purged_by (endpoint key : string) : bool :=
  if includes endpoint "/books" then
    includes key "/books" || includes key "/statistics"
  else if includes endpoint "/borrow-records" then
    includes key "/borrow-records" || includes key "/books"
    || includes key "/statistics"
  else false.

Section Session.

Context {Payload : Type}.

Definition setToken (token : string) (st : Client Payload) : Client Payload :=
  {| apiCache := apiCache st;
     localStorage := <["jwt_token" := token]> (localStorage st);
     ui := ui st; network := network st |}.

(** [!!getToken()]: a missing token and an empty one both count as none. *)
Definition isAuthenticated (st : Client Payload) : bool :=
  match getToken st with
  | Some token => truthy token
  | None => false
  end.


(** The age column of the cache status table:
    [Math.floor((Date.now() - cache.timestamp) / 1000)]. *)
Definition age_shown (now : Z) (cached : CacheEntry Payload) : Z :=
  (now - timestamp cached) / 1000.

(** The ETag column: [cache.etag ? cache.etag.substring(0, 12) + '...' : 'N/A']. *)
Definition etag_shown (cached : CacheEntry Payload) : string :=
  if truthy (etag cached)
  then String.substring 0 12 (etag cached) +:+ "..."
  else "N/A".

(** Calls of [apiRequest] one after the other, each run to completion
    before the next starts. *)
Definition run_requests (calls : list (World Payload * string * Options))
    (st : Client Payload) : Client Payload :=
  fold_left (fun st call => (apiRequest call.1.1 call.1.2 call.2 st).1)
            calls st.


(** What [apiRequest] and the cache status table rely on: every key is a
    full URL of the API and every entry has an ETag. *)
Definition cache_wf (c : gmap string (CacheEntry Payload)) : Prop :=
  ∀ k e, c !! k = Some e →
    String.prefix API_BASE_URL k = true ∧ truthy (etag e) = true.

End Session.

(* ===================================================================== *)
(** ** A sample client *)
(* ===================================================================== *)

(** Payloads are written as strings in the samples. *)
Definition books_url : string :=
  "http://localhost:5000/api/books?page=1&per_page=10".
Definition records_url : string :=
  "http://localhost:5000/api/borrow-records?page=1&per_page=10".
Definition statistics_url : string :=
  "http://localhost:5000/api/statistics".

Definition books_entry : CacheEntry string :=
  {| data := "books, page 1"; etag := "b1"; timestamp := 0 |}.
Definition records_entry : CacheEntry string :=
  {| data := "records, page 1"; etag := "r1"; timestamp := 0 |}.
Definition statistics_entry : CacheEntry string :=
  {| data := "statistics"; etag := "s1"; timestamp := 0 |}.

Definition sample_cache : gmap string (CacheEntry string) :=
  <[books_url := books_entry]>
    (<[records_url := records_entry]>
       (<[statistics_url := statistics_entry]> ∅)).

Definition sample_client : Client string :=
  {| apiCache := sample_cache;
     localStorage := <["jwt_token" := "t0k3n"]> (<["username" := "admin"]> ∅);
     ui := [];
     network := [] |}.

Definition fresh_client : Client string :=
  {| apiCache := ∅;
     localStorage := <["jwt_token" := "t0k3n"]> (<["username" := "admin"]> ∅);
     ui := [];
     network := [] |}.

Definition get_options : Options :=
  {| method := None; headers := ∅; body := None |}.
Definition post_options : Options :=
  {| method := Some "POST"; headers := ∅; body := Some "{}" |}.
Definition put_options : Options :=
  {| method := Some "PUT"; headers := ∅; body := None |}.

(** A world in which the three clock readings are [t1], [t2], [t3] and
    [fetch] settles as [answer] whatever the request. *)
Definition world (t1 t2 t3 : Z) (answer : FetchResult string) : World string :=
  {| t_lookup := t1; fetch := fun _ => answer; t_response := t2; t_store := t3 |}.

Definition reply (s : Z) (tag : option string) (b : string + string)
    : Response string :=
  {| status := s; hdr_ETag := tag; hdr_CacheControl := None; json := b |}.

(* ===================================================================== *)
(** ** The inventory rules of the server *)
(* ===================================================================== *)

(** The server is not among the sources at hand (only its client, its test
    notes and its set-up guides are); its rules are taken from the
    specification of the inventory rules engine. *)
Module Inventory.

(** Modelled from the spec: the data model of the store (Book,
    BorrowRecord and the error taxonomy), whose declarations are not in the
    sources. *)
Inductive Status := borrowed | returned.

Record Book := {
  title : string;
  author : string;
  isbn : string;
  quantity : Z;
  available : Z;
  created_at : Z
}.

Record BorrowRecord := {
  book_id : nat;
  borrower_name : string;
  borrower_email : string;
  borrow_date : Z;
  return_date : option Z;
  status : Status
}.

Inductive Error :=
  | ValidationError
  | NotFound
  | DuplicateISBN
  | OutOfStock
  | Conflict
  | AlreadyReturned.

(** Modelled from the spec: the resource store, which is not in the sources.
    Books are kept under unique identifiers, issued in sequence; a borrow
    record is never deleted, and its identifier is its position in the list
    of records. *)
Record Store := {
  books : gmap nat Book;
  records : list BorrowRecord;
  next_book_id : nat
}.

Definition empty_store : Store :=
  {| books := ∅; records := []; next_book_id := 0 |}.

Inductive Outcome :=
  | Applied (s : Store)
  | Refused (e : Error).

Definition is_borrowed (r : BorrowRecord) : bool :=
  match status r with
  | borrowed => true
  | returned => false
  end.

Definition borrowed_for (bookId : nat) (r : BorrowRecord) : bool :=
  Nat.eqb (book_id r) bookId && is_borrowed r.

(** Modelled from the spec: the count of borrow records with status
    [borrowed] for a book, which the server code (not in the sources)
    computes. *)
Fixpoint borrowedCount (bookId : nat) (rs : list BorrowRecord) : Z :=
  match rs with
  | [] => 0
  | r :: rs' => (if borrowed_for bookId r then 1 else 0) + borrowedCount bookId rs'
  end.

Definition is_digit (a : Ascii.ascii) : bool :=
  let n := Ascii.nat_of_ascii a in (48 <=? n)%nat && (n <=? 57)%nat.

Fixpoint all_digits (s : string) : bool :=
  match s with
  | EmptyString => true
  | String a s' => is_digit a && all_digits s'
  end.

(** Modelled from the spec: the ISBN is a numeric string of a fixed length;
    the length, 13 digits, is the one the repository's user guide gives. *)
Definition isbn_length : nat := 13.

Definition valid_isbn (i : string) : bool :=
  Nat.eqb (String.length i) isbn_length && all_digits i.

Definition isbn_present (i : string) (bs : gmap nat Book) : bool :=
  existsb (fun kb => String.eqb (isbn kb.2) i) (map_to_list bs).

Section Rules.

(** The spec rejects a borrower name or address that is "empty/malformed"
    and does not say what malformed means: the test is a parameter. *)
Variable malformed : string -> bool.

Definition rejected (s : string) : bool := negb (truthy s) || malformed s.

(** Modelled from the spec: [createBook] of the server, which is not in the
    sources.  A new book has all its copies available. *)
Definition createBook (t a i : string) (q now : Z) (s : Store) : Outcome :=
  if isbn_present i (books s) then Refused DuplicateISBN
  else if negb (valid_isbn i) || (q <? 0) then Refused ValidationError
  else
    Applied {| books :=
              <[next_book_id s :=
                  {| title := t; author := a; isbn := i; quantity := q;
                     available := q; created_at := now |}]> (books s);
            records := records s;
            next_book_id := S (next_book_id s) |}.

(** Modelled from the spec: [updateBook] of the server, which is not in the
    sources.  A quantity below the copies on loan ([quantity - available])
    is refused; otherwise [available] is recomputed from the borrowed
    count. *)
Definition updateBook (bookId : nat) (newQuantity : Z) (s : Store) : Outcome :=
  match books s !! bookId with
  | None => Refused NotFound
  | Some b =>
      if newQuantity <? quantity b - available b then Refused ValidationError
      else
        Applied {| books :=
                  <[bookId :=
                      {| title := title b; author := author b; isbn := isbn b;
                         quantity := newQuantity;
                         available :=
                           newQuantity - borrowedCount bookId (records s);
                         created_at := created_at b |}]> (books s);
                records := records s;
                next_book_id := next_book_id s |}
  end.

(** Modelled from the spec: [borrow] of the server, which is not in the
    sources.  The check and the decrement are one step. *)
Definition borrow (bookId : nat) (name email : string) (now : Z) (s : Store)
    : Outcome :=
  if rejected name || rejected email then Refused ValidationError
  else
    match books s !! bookId with
    | None => Refused NotFound
    | Some b =>
        if available b <=? 0 then Refused OutOfStock
        else
          Applied {| books :=
                    <[bookId :=
                        {| title := title b; author := author b;
                           isbn := isbn b; quantity := quantity b;
                           available := available b - 1;
                           created_at := created_at b |}]> (books s);
                  records :=
                    records s ++
                    [{| book_id := bookId; borrower_name := name;
                        borrower_email := email; borrow_date := now;
                        return_date := None; status := borrowed |}];
                  next_book_id := next_book_id s |}
    end.

Definition mark_returned (now : Z) (r : BorrowRecord) : BorrowRecord :=
  {| book_id := book_id r; borrower_name := borrower_name r;
     borrower_email := borrower_email r; borrow_date := borrow_date r;
     return_date := Some now; status := returned |}.

(** Modelled from the spec: [returnBook] of the server, which is not in the
    sources.  The record is marked returned and the book's [available] goes
    up by one; that it never exceeds [quantity] is read as a consequence,
    proved below, not as a clamp. *)
Definition returnBook (recordId : nat) (now : Z) (s : Store) : Outcome :=
  match records s !! recordId with
  | None => Refused NotFound
  | Some r =>
      if is_borrowed r then
        Applied {| books :=
                  match books s !! book_id r with
                  | Some b =>
                      <[book_id r :=
                          {| title := title b; author := author b;
                             isbn := isbn b; quantity := quantity b;
                             available := available b + 1;
                             created_at := created_at b |}]> (books s)
                  | None => books s
                  end;
                records := <[recordId := mark_returned now r]> (records s);
                next_book_id := next_book_id s |}
      else Refused AlreadyReturned
  end.

(** Modelled from the spec: [deleteBook] of the server, which is not in the
    sources. *)
Definition deleteBook (bookId : nat) (s : Store) : Outcome :=
  match books s !! bookId with
  | None => Refused NotFound
  | Some _ =>
      if existsb (borrowed_for bookId) (records s) then Refused Conflict
      else
        Applied {| books := delete bookId (books s);
                records := records s;
                next_book_id := next_book_id s |}
  end.

(** Modelled from the spec: the five operations of the inventory rules
    engine, as requests to the store. *)
Inductive Op :=
  | CreateBook (t a i : string) (q now : Z)
  | UpdateBook (bookId : nat) (newQuantity : Z)
  | Borrow (bookId : nat) (name email : string) (now : Z)
  | ReturnBook (recordId : nat) (now : Z)
  | DeleteBook (bookId : nat).

Definition apply_op (op : Op) (s : Store) : Outcome :=
  match op with
  | CreateBook t a i q now => createBook t a i q now s
  | UpdateBook bookId newQuantity => updateBook bookId newQuantity s
  | Borrow bookId name email now => borrow bookId name email now s
  | ReturnBook recordId now => returnBook recordId now s
  | DeleteBook bookId => deleteBook bookId s
  end.

(** Modelled from the spec: each operation is applied as one atomic unit,
    and a failed one leaves the store as it was. *)
Definition step (s : Store) (op : Op) : Store :=
  match apply_op op s with
  | Applied s' => s'
  | Refused _ => s
  end.

Definition run (ops : list Op) (s : Store) : Store := fold_left step ops s.

End Rules.

(** Modelled from the spec: the invariant of the data model.  For every book, [available] is not
    negative and is [quantity] less the borrowed count; every record still
    on loan is for a book of the store; identifiers in use are below the
    next one to be issued. *)
Definition consistent (s : Store) : Prop :=
  (∀ id b, books s !! id = Some b →
     0 ≤ available b ∧
     available b + borrowedCount id (records s) = quantity b) ∧
  (∀ r, r ∈ records s → is_borrowed r = true →
     is_Some (books s !! book_id r)) ∧
  (∀ id, is_Some (books s !! id) → (id < next_book_id s)%nat).

End Inventory.

(** A store that finds no name or address malformed. *)
Definition accept_all : string -> bool := fun _ => false.

(** A sample history of the store: one title with two copies, two loans, a
    third refused, a return, a new quantity, a deletion refused. *)
Definition sample_ops : list Inventory.Op :=
  [ Inventory.CreateBook "Dune" "Frank Herbert" "9780441172719" 2 100;
    Inventory.Borrow 0 "An" "an@example.org" 200;
    Inventory.Borrow 0 "Binh" "binh@example.org" 300;
    Inventory.Borrow 0 "Chi" "chi@example.org" 400;
    Inventory.ReturnBook 0 500;
    Inventory.UpdateBook 0 5;
    Inventory.DeleteBook 0 ].

Definition sample_book : Inventory.Book :=
  {| Inventory.title := "Dune"; Inventory.author := "Frank Herbert";
     Inventory.isbn := "9780441172719"; Inventory.quantity := 5;
     Inventory.available := 4; Inventory.created_at := 100 |}.

(* ===================================================================== *)
(** ** Strings: what [includes] computes *)
(* ===================================================================== *)

Lemma append_nil (t : string) : "" +:+ t = t.
Proof. reflexivity. Qed.

Lemma append_cons (a : Ascii.ascii) (s t : string) :
  String a s +:+ t = String a (s +:+ t).
Proof. reflexivity. Qed.

Lemma prefix_spec (p s : string) :
  String.prefix p s = true ↔ ∃ b, s = p +:+ b.
Proof.
  revert s. induction p as [|a p IH]; intros s.
  - split; [intros _; by exists s | by destruct s].
  - destruct s as [|b s]; simpl.
    + split; [done | intros [t Ht]; by rewrite append_cons in Ht].
    + destruct (Ascii.ascii_dec a b) as [->|Hne].
      * rewrite IH. split; intros [t Ht]; exists t;
          rewrite append_cons in *; congruence.
      * split; [done | intros [t Ht]; rewrite append_cons in Ht; congruence].
Qed.

(** [includes s p] holds exactly when [p] is a substring of [s]. *)
Lemma includes_spec (s p : string) :
  includes s p = true ↔ ∃ a b, s = a +:+ p +:+ b.
Proof.
  induction s as [|x s IH].
  - change (includes "" p) with (String.prefix p "" || false).
    rewrite orb_false_r, prefix_spec. split.
    + intros [b Hb]. by exists "", b.
    + intros [a [b Hab]]. destruct a; [by exists b | by rewrite append_cons in Hab].
  - change (includes (String x s) p)
      with (String.prefix p (String x s) || includes s p).
    rewrite orb_true_iff, prefix_spec, IH. split.
    + intros [[b Hb] | [a [b Hab]]].
      * by exists "", b.
      * exists (String x a), b. by rewrite append_cons, Hab.
    + intros [a [b Hab]]. destruct a as [|y a].
      * left. by exists b.
      * right. exists a, b. rewrite append_cons in Hab. congruence.
Qed.

Lemma includes_empty_pattern (s : string) : includes s "" = true.
Proof. apply includes_spec. by exists "", s. Qed.

Lemma truthy_false (s : string) : truthy s = false → s = "".
Proof. by destruct s. Qed.

(* ===================================================================== *)
(** ** Cache management *)
(* ===================================================================== *)

Section CacheFacts.

Context {Payload : Type}.
Implicit Types (c : gmap string (CacheEntry Payload)) (e : CacheEntry Payload).

Lemma getCachedResponse_absent now u maxAge c :
  c !! u = None → getCachedResponse now u maxAge c = (c, None).
Proof. intros H. unfold getCachedResponse. by rewrite H. Qed.

Lemma getCachedResponse_expired now u maxAge c e :
  c !! u = Some e → expired now e maxAge = true →
  getCachedResponse now u maxAge c = (delete u c, None).
Proof. intros H He. unfold getCachedResponse. by rewrite H, He. Qed.

Lemma getCachedResponse_fresh now u maxAge c e :
  c !! u = Some e → expired now e maxAge = false →
  getCachedResponse now u maxAge c = (c, Some e).
Proof. intros H He. unfold getCachedResponse. by rewrite H, He. Qed.

(** A lookup leaves the map as it is, or deletes the entry looked up. *)
Lemma getCachedResponse_cache now u maxAge c :
  (getCachedResponse now u maxAge c).1 = c ∨
  (∃ e, c !! u = Some e ∧ expired now e maxAge = true ∧
        (getCachedResponse now u maxAge c).1 = delete u c).
Proof.
  unfold getCachedResponse. destruct (c !! u) as [e|] eqn:H; [|by left].
  destruct (expired now e maxAge) eqn:He; [|by left].
  right. by exists e.
Qed.

(** A hit leaves the map as it is and returns the stored entry. *)
Lemma getCachedResponse_hit now u maxAge c c' e :
  getCachedResponse now u maxAge c = (c', Some e) →
  c' = c ∧ c !! u = Some e ∧ expired now e maxAge = false.
Proof.
  unfold getCachedResponse. destruct (c !! u) as [e0|]; [|done].
  destruct (expired now e0 maxAge) eqn:He; [done|].
  intros [= <- <-]. done.
Qed.

Lemma getCachedResponse_subseteq now u maxAge c :
  (getCachedResponse now u maxAge c).1 ⊆ c.
Proof.
  destruct (getCachedResponse_cache now u maxAge c) as [-> | (e & _ & _ & ->)].
  - done.
  - apply delete_subseteq.
Qed.

Lemma clear_matching_lookup (p : string) (keys : list string) c (k : string) :
  clear_matching p keys c !! k =
  if includes k p && bool_decide (k ∈ keys) then None else c !! k.
Proof.
  revert c. induction keys as [|key keys IH]; intros c; simpl.
  - by rewrite andb_false_r.
  - unfold clear_matching in *. simpl. rewrite IH.
    destruct (includes k p) eqn:Hk; simpl.
    + destruct (decide (k = key)) as [->|Hne].
      * rewrite Hk, lookup_delete_eq.
        rewrite (bool_decide_eq_true_2 (key ∈ key :: keys)) by left.
        by destruct (bool_decide (key ∈ keys)).
      * assert (k ∈ key :: keys ↔ k ∈ keys) as Hiff
          by (rewrite elem_of_cons; tauto).
        rewrite (bool_decide_ext _ _ Hiff).
        destruct (bool_decide (k ∈ keys)); [done|].
        destruct (includes key p); [by rewrite lookup_delete_ne|done].
    + destruct (includes key p) eqn:Hkey; [|done].
      rewrite lookup_delete_ne; [done|]. intros ->. congruence.
Qed.

(** [clearCache] with a pattern: the entries whose key includes the pattern
    are gone, the others are as they were. *)
Lemma clearCache_lookup (p : string) c (k : string) :
  clearCache (Some p) c !! k = if includes k p then None else c !! k.
Proof.
  unfold clearCache. destruct (truthy p) eqn:Hp.
  - rewrite clear_matching_lookup.
    destruct (includes k p); [|done]. simpl.
    case_bool_decide as Hin; [done|].
    apply not_elem_of_dom. intros Hd. apply Hin.
    apply elem_of_dom in Hd as [e He].
    apply list_elem_of_fmap. exists (k, e). split; [done|].
    by apply elem_of_map_to_list.
  - apply truthy_false in Hp as ->.
    by rewrite includes_empty_pattern, lookup_empty.
Qed.

Lemma clearCache_subseteq (pattern : option string) c :
  clearCache pattern c ⊆ c.
Proof.
  destruct pattern as [p|]; [|apply map_empty_subseteq].
  apply map_subseteq_spec. intros k e. rewrite clearCache_lookup.
  by destruct (includes k p).
Qed.

End CacheFacts.

(* ===================================================================== *)
(** ** The request helper: what each phase does to the client *)
(* ===================================================================== *)

Section RequestFacts.

Context {Payload : Type}.
Implicit Types (w : World Payload) (st : Client Payload)
  (e : CacheEntry Payload) (r : Response Payload) (o : Options).

Lemma is_mutation_not_get o : is_mutation o = true → is_get o = false.
Proof.
  unfold is_mutation, is_get. destruct (method o) as [m|]; [|done].
  destruct (truthy m); [|done]. simpl.
  unfold array_includes. simpl. rewrite !orb_true_iff.
  intros [H|[H|[H|H]]]; try done; apply String.eqb_eq in H as ->; done.
Qed.

Lemma is_get_not_mutation o : is_get o = true → is_mutation o = false.
Proof.
  intros H. destruct (is_mutation o) eqn:Hm; [|done].
  apply is_mutation_not_get in Hm. congruence.
Qed.

Lemma ok_status r : ok r = true → 200 ≤ status r ≤ 299.
Proof. unfold ok. rewrite andb_true_iff. lia. Qed.

(** The caller's headers reach the request; the helper itself adds only
    [Content-Type] and [Authorization]. *)
Lemma base_config_if_none_match o st :
  headers (base_config o st) !! "If-None-Match" = headers o !! "If-None-Match".
Proof.
  assert ((headers o ∪ {["Content-Type" := "application/json"]})
          !! "If-None-Match" = headers o !! "If-None-Match") as Hu.
  { rewrite lookup_union, lookup_singleton_ne by done.
    by destruct (headers o !! "If-None-Match"). }
  unfold base_config. simpl. destruct (getToken st) as [t|]; [|done].
  destruct (truthy t); [|done]. by rewrite lookup_insert_ne.
Qed.

(** [send] touches neither [localStorage] nor the page, and issues exactly
    one request, to the full URL. *)
Lemma send_frame w endpoint o st :
  localStorage (send w endpoint o st).1 = localStorage st ∧
  ui (send w endpoint o st).1 = ui st ∧
  network (send w endpoint o st).1 = network st ++ [(send w endpoint o st).2] ∧
  url (send w endpoint o st).2 = API_BASE_URL +:+ endpoint.
Proof.
  unfold send. destruct (is_get o); [|done].
  destruct (getCachedResponse _ _ _ _) as [c [e|]]; [|done].
  by destruct (truthy (etag e)).
Qed.

Lemma send_cache w endpoint o st :
  apiCache (send w endpoint o st).1 =
  if is_get o
  then (getCachedResponse (t_lookup w) (API_BASE_URL +:+ endpoint)
          default_maxAge (apiCache st)).1
  else apiCache st.
Proof.
  unfold send. destruct (is_get o); [|done].
  destruct (getCachedResponse _ _ _ _) as [c [e|]]; [|done].
  by destruct (truthy (etag e)).
Qed.

Lemma send_headers w endpoint o st :
  headers (config (send w endpoint o st).2) =
  match (if is_get o
         then (getCachedResponse (t_lookup w) (API_BASE_URL +:+ endpoint)
                 default_maxAge (apiCache st)).2
         else None) with
  | Some e =>
      if truthy (etag e)
      then <["If-None-Match" := etag e]> (headers (base_config o st))
      else headers (base_config o st)
  | None => headers (base_config o st)
  end.
Proof.
  unfold send. destruct (is_get o); [|reflexivity].
  destruct (getCachedResponse _ _ _ _) as [c [e|]]; [|reflexivity].
  simpl. destruct (truthy (etag e)); reflexivity.
Qed.

Lemma send_cache_subseteq w endpoint o st :
  apiCache (send w endpoint o st).1 ⊆ apiCache st.
Proof.
  rewrite send_cache. destruct (is_get o); [|done].
  apply getCachedResponse_subseteq.
Qed.

(** Nothing after [fetch] touches the list of issued requests. *)
Lemma receive_network w endpoint o answer st :
  network (receive w endpoint o answer st).1 = network st.
Proof.
  unfold receive. destruct answer as [m|r]; [done|].
  destruct (if status r =? 304 then _ else _) as [c [e|]]; [done|].
  destruct (json r) as [m|parsed]; [done|].
  unfold on_body. by destruct (status r =? 401).
Qed.

Lemma invalidate_subseteq endpoint o (c : gmap string (CacheEntry Payload)) :
  invalidate endpoint o c ⊆ c.
Proof.
  unfold invalidate. destruct (is_mutation o); [|done].
  destruct (includes endpoint "/books").
  - etrans; [apply clearCache_subseteq|]. apply clearCache_subseteq.
  - destruct (includes endpoint "/borrow-records"); [|done].
    etrans; [apply clearCache_subseteq|].
    etrans; [apply clearCache_subseteq|]. apply clearCache_subseteq.
Qed.

(** A response that is not a 304 and whose body parses goes to [on_body]
    with the client as [send] left it. *)
Lemma receive_parsed w endpoint o r parsed st :
  status r ≠ 304 → json r = inr parsed →
  receive w endpoint o (Resolves r) st = on_body w endpoint o r parsed st.
Proof.
  intros Hs Hj. unfold receive.
  destruct (status r =? 304) eqn:E; [lia|]. rewrite Hj.
  by destruct st.
Qed.

End RequestFacts.

(* ===================================================================== *)
(** ** Properties of the cache layer *)
(* ===================================================================== *)

Section CacheLayer.

Context {Payload : Type}.
Implicit Types (w : World Payload) (st : Client Payload)
  (e : CacheEntry Payload) (r : Response Payload) (o : Options)
  (c : gmap string (CacheEntry Payload)).

(** C10. For every pattern string [p] and every cache, [clearCache(p)]
    removes exactly the entries whose key includes [p] (see [includes_spec]:
    [p] is a substring of the key); every other entry keeps its payload,
    ETag and timestamp. *)
Theorem clearCache_removes_exactly_matching (p : string) c :
  clearCache (Some p) c = filter (λ kv, includes kv.1 p = false) c ∧
  ∀ k : string,
    clearCache (Some p) c !! k = if includes k p then None else c !! k.
Proof.
  split; [|intros k; apply clearCache_lookup].
  apply map_eq. intros k. apply option_eq. intros e.
  rewrite map_lookup_filter_Some, clearCache_lookup. simpl.
  destruct (includes k p) eqn:Hk.
  - split; [done|]. intros [_ ?]. done.
  - split; [by intros ?|]. by intros [? _].
Qed.

(** C4. An entry whose age at lookup time exceeds [maxAge] is purged by the
    lookup, which reports a miss; with the default of 60 seconds used by
    [apiRequest], the GET that follows for that URL carries no
    [If-None-Match] header (the caller having supplied none). *)
Theorem expired_entry_purged_and_unconditional w endpoint o st e (maxAge : Z) :
  is_get o = true →
  apiCache st !! (API_BASE_URL +:+ endpoint) = Some e →
  1000 * maxAge < t_lookup w - timestamp e →
  headers o !! "If-None-Match" = None →
  getCachedResponse (t_lookup w) (API_BASE_URL +:+ endpoint) maxAge (apiCache st)
    = (delete (API_BASE_URL +:+ endpoint) (apiCache st), None) ∧
  (maxAge = default_maxAge →
   apiCache (send w endpoint o st).1
     = delete (API_BASE_URL +:+ endpoint) (apiCache st) ∧
   url (send w endpoint o st).2 = API_BASE_URL +:+ endpoint ∧
   headers (config (send w endpoint o st).2) !! "If-None-Match" = None).
Proof.
  intros Hget He Hage Hcaller.
  assert (getCachedResponse (t_lookup w) (API_BASE_URL +:+ endpoint) maxAge
            (apiCache st)
          = (delete (API_BASE_URL +:+ endpoint) (apiCache st), None)) as Hmiss.
  { apply getCachedResponse_expired with e; [done|].
    unfold expired. apply Z.ltb_lt. lia. }
  split; [done|]. intros ->.
  rewrite send_cache, send_headers, Hget, Hmiss. cbn [fst snd].
  split; [done|]. split; [apply send_frame|].
  by rewrite base_config_if_none_match.
Qed.

(** C5. A GET to a URL holding an unexpired entry with an ETag is sent with
    [If-None-Match] set to that ETag, and it is sent: the call adds exactly
    this request to the requests issued, and its outcome is what [receive]
    makes of the answer to it. *)
Theorem fresh_entry_sends_conditional_request w endpoint o st e :
  is_get o = true →
  apiCache st !! (API_BASE_URL +:+ endpoint) = Some e →
  expired (t_lookup w) e default_maxAge = false →
  truthy (etag e) = true →
  url (send w endpoint o st).2 = API_BASE_URL +:+ endpoint ∧
  headers (config (send w endpoint o st).2) !! "If-None-Match" = Some (etag e) ∧
  network (apiRequest w endpoint o st).1
    = network st ++ [(send w endpoint o st).2] ∧
  apiRequest w endpoint o st
    = receive w endpoint o (fetch w (send w endpoint o st).2)
        (send w endpoint o st).1.
Proof.
  intros Hget He Hfresh Htag.
  split; [apply send_frame|]. split.
  { rewrite send_headers, Hget.
    rewrite (getCachedResponse_fresh _ _ _ _ e) by done. cbn [fst snd].
    by rewrite Htag, lookup_insert_eq. }
  assert (apiRequest w endpoint o st
          = receive w endpoint o (fetch w (send w endpoint o st).2)
              (send w endpoint o st).1) as Hrun.
  { unfold apiRequest. by destruct (send w endpoint o st). }
  split; [|done].
  rewrite Hrun, receive_network. apply send_frame.
Qed.

(** C3 (as amended). A response with status 401 whose body parses, to
    whatever URL, empties the cache map, removes the stored token and makes
    the call return null, after the session-expired alert and the switch to
    the login view.  (The status is tested after [await response.json()]:
    a 401 whose body does not parse ends in the [catch] block.) *)
Theorem unauthorized_clears_cache_and_token w endpoint o st r parsed :
  fetch w (send w endpoint o st).2 = Resolves r →
  status r = 401 →
  json r = inr parsed →
  (apiRequest w endpoint o st).2 = None ∧
  apiCache (apiRequest w endpoint o st).1 = ∅ ∧
  getToken (apiRequest w endpoint o st).1 = None ∧
  localStorage (apiRequest w endpoint o st).1
    = delete "username" (delete "jwt_token" (localStorage st)) ∧
  ui (apiRequest w endpoint o st).1
    = ui st ++ [Alert "Session expired. Please login again." "error";
                SwitchView "login"].
Proof.
  intros Hfetch Hs Hj. unfold apiRequest.
  destruct (send_frame w endpoint o st) as (Hls & Hui & _ & _).
  destruct (send w endpoint o st) as [st1 req]. simpl in *.
  rewrite Hfetch, receive_parsed with (parsed := parsed) by (done || lia).
  unfold on_body. rewrite Hs. simpl. rewrite Hls, Hui.
  repeat split.
  - unfold getToken. simpl. rewrite lookup_delete_ne by done.
    apply lookup_delete_eq.
  - by rewrite <- app_assoc.
Qed.

(** C9. A 304 that finds no unexpired entry for the URL when it is handled
    (none at all, or one that has expired by then) gives the caller no
    payload: the empty body does not parse, and the call returns null after
    the connection-error alert. *)
Theorem not_modified_without_entry_returns_null w endpoint o st r message :
  is_get o = true →
  status r = 304 →
  json r = inl message →
  (∀ e, apiCache st !! (API_BASE_URL +:+ endpoint) = Some e →
        expired (t_response w) e default_maxAge = true) →
  (receive w endpoint o (Resolves r) st).2 = None ∧
  ui (receive w endpoint o (Resolves r) st).1
    = ui st ++ [Alert ("Connection error: " +:+ message) "error"] ∧
  apiCache (receive w endpoint o (Resolves r) st).1
    = delete (API_BASE_URL +:+ endpoint) (apiCache st).
Proof.
  intros _ Hs Hj Hnone. unfold receive. rewrite Hs. simpl.
  assert (getCachedResponse (t_response w) (API_BASE_URL +:+ endpoint)
            default_maxAge (apiCache st)
          = (delete (API_BASE_URL +:+ endpoint) (apiCache st), None)) as ->.
  { destruct (apiCache st !! (API_BASE_URL +:+ endpoint)) as [e|] eqn:He.
    - apply getCachedResponse_expired with e; auto.
    - rewrite getCachedResponse_absent by done.
      by rewrite delete_id. }
  by rewrite Hj.
Qed.

(** C7. When the transport fails (fetch rejects, or [response.json()] is
    reached and throws) the call returns null after a connection-error
    alert, [localStorage] is as it was, and the cache map is as it was
    except that a lookup may have purged the expired entry of the request's
    own URL: nothing is added to it. *)
Theorem transport_failure_frame w endpoint o st message :
  (fetch w (send w endpoint o st).2 = Rejects message ∨
   ∃ r, fetch w (send w endpoint o st).2 = Resolves r ∧
        json r = inl message ∧
        (status r = 304 →
         (getCachedResponse (t_response w) (API_BASE_URL +:+ endpoint)
            default_maxAge (apiCache (send w endpoint o st).1)).2 = None)) →
  (apiRequest w endpoint o st).2 = None ∧
  localStorage (apiRequest w endpoint o st).1 = localStorage st ∧
  ui (apiRequest w endpoint o st).1
    = ui st ++ [Alert ("Connection error: " +:+ message) "error"] ∧
  (apiCache (apiRequest w endpoint o st).1 = apiCache st ∨
   ∃ e, apiCache st !! (API_BASE_URL +:+ endpoint) = Some e ∧
        (expired (t_lookup w) e default_maxAge = true ∨
         expired (t_response w) e default_maxAge = true) ∧
        apiCache (apiRequest w endpoint o st).1
          = delete (API_BASE_URL +:+ endpoint) (apiCache st)).
Proof.
  intros Hfail. unfold apiRequest.
  destruct (send_frame w endpoint o st) as (Hls & Hui & _ & _).
  pose proof (send_cache w endpoint o st) as Hc.
  destruct (send w endpoint o st) as [st1 req]. simpl in *.
  assert (apiCache st1 = apiCache st ∨
          ∃ e, apiCache st !! (API_BASE_URL +:+ endpoint) = Some e ∧
               expired (t_lookup w) e default_maxAge = true ∧
               apiCache st1 = delete (API_BASE_URL +:+ endpoint) (apiCache st))
    as Hsent.
  { rewrite Hc. destruct (is_get o); [|by left].
    apply getCachedResponse_cache. }
  destruct Hfail as [-> | (r & -> & Hj & Hmiss)].
  - simpl. rewrite Hls, Hui. repeat split.
    destruct Hsent as [?|(e & ? & ? & ?)]; [by left|right; exists e; auto].
  - unfold receive. destruct (status r =? 304) eqn:E.
    + apply Z.eqb_eq in E. specialize (Hmiss E).
      pose proof (getCachedResponse_cache (t_response w)
                    (API_BASE_URL +:+ endpoint) default_maxAge (apiCache st1))
        as Hsecond.
      destruct (getCachedResponse _ _ _ (apiCache st1)) as [c2 cached].
      simpl in *. subst cached. rewrite Hj. simpl. rewrite Hls, Hui.
      repeat split.
      destruct Hsecond as [-> | (e2 & He2 & Hx2 & ->)]; [| ].
      * destruct Hsent as [?|(e & ? & ? & ?)]; [by left|right; exists e; auto].
      * destruct Hsent as [Heq|(e & ? & ? & Heq)]; rewrite Heq in *.
        -- right. exists e2. auto.
        -- by rewrite lookup_delete_eq in He2.
    + rewrite Hj. simpl. rewrite Hls, Hui. repeat split.
      destruct Hsent as [?|(e & ? & ? & ?)]; [by left|right; exists e; auto].
Qed.

Lemma insert_after_lookup now (u : string) (maxAge : Z) c e :
  <[u := e]> (getCachedResponse now u maxAge c).1 = <[u := e]> c.
Proof.
  destruct (getCachedResponse_cache now u maxAge c) as [-> | (e0 & _ & _ & ->)].
  - done.
  - apply insert_delete_eq.
Qed.

Lemma on_body_cache_subseteq w endpoint o r parsed st :
  ok r && is_get o = false →
  apiCache (on_body w endpoint o r parsed st).1 ⊆ apiCache st.
Proof.
  intros Hno. unfold on_body. destruct (status r =? 401).
  - apply map_empty_subseteq.
  - rewrite Hno. apply invalidate_subseteq.
Qed.

(** A GET answered by a successful response with an ETag: the caller gets
    the parsed body, which is also what the cache now holds for the URL. *)
Lemma apiRequest_cacheable_get w endpoint o st r parsed tag :
  is_get o = true →
  fetch w (send w endpoint o st).2 = Resolves r →
  ok r = true → json r = inr parsed →
  hdr_ETag r = Some tag → truthy tag = true →
  (apiRequest w endpoint o st).2
    = Some {| response := Real r; result := parsed |} ∧
  apiCache (apiRequest w endpoint o st).1
    = <[API_BASE_URL +:+ endpoint :=
          {| data := parsed; etag := tag; timestamp := t_store w |}]>
        (apiCache st).
Proof.
  intros Hget Hfetch Hok Hj Htag Htruthy.
  pose proof (ok_status r Hok) as Hrange.
  pose proof (send_cache w endpoint o st) as Hc. rewrite Hget in Hc.
  unfold apiRequest. destruct (send w endpoint o st) as [st1 req].
  simpl in *. rewrite Hfetch.
  rewrite receive_parsed with (parsed := parsed) by (done || lia).
  unfold on_body. destruct (status r =? 401) eqn:E401; [lia|].
  rewrite Hok, Hget, Htag, Htruthy. simpl. split; [done|].
  unfold invalidate. rewrite (is_get_not_mutation o Hget).
  unfold setCachedResponse. rewrite Hc. apply insert_after_lookup.
Qed.

(** Two identical GETs, the second answered 304 within the 60 seconds: both
    give the caller the same payload, and the second carried the ETag of
    the first. *)
Lemma get_then_not_modified_same_payload w1 w2 endpoint o st r1 parsed tag r2 :
  is_get o = true →
  fetch w1 (send w1 endpoint o st).2 = Resolves r1 →
  ok r1 = true → json r1 = inr parsed →
  hdr_ETag r1 = Some tag → truthy tag = true →
  t_lookup w2 - t_store w1 ≤ 1000 * default_maxAge →
  t_response w2 - t_store w1 ≤ 1000 * default_maxAge →
  fetch w2 (send w2 endpoint o (apiRequest w1 endpoint o st).1).2 = Resolves r2 →
  status r2 = 304 →
  result <$> (apiRequest w1 endpoint o st).2 = Some parsed ∧
  result <$> (apiRequest w2 endpoint o (apiRequest w1 endpoint o st).1).2
    = Some parsed ∧
  headers (config (send w2 endpoint o (apiRequest w1 endpoint o st).1).2)
    !! "If-None-Match" = Some tag.
Proof.
  intros Hget Hfetch1 Hok Hj Htag Htruthy Hage1 Hage2 Hfetch2 Hs.
  destruct (apiRequest_cacheable_get w1 endpoint o st r1 parsed tag)
    as [Hret Hcache]; try done.
  set (st1 := (apiRequest w1 endpoint o st).1) in *.
  set (e := {| data := parsed; etag := tag; timestamp := t_store w1 |}) in *.
  assert (apiCache st1 !! (API_BASE_URL +:+ endpoint) = Some e) as He
    by (by rewrite Hcache, lookup_insert_eq).
  assert (expired (t_lookup w2) e default_maxAge = false) as Hf1
    by (unfold expired; simpl; apply Z.ltb_ge; lia).
  assert (expired (t_response w2) e default_maxAge = false) as Hf2
    by (unfold expired; simpl; apply Z.ltb_ge; lia).
  split; [by rewrite Hret|]. split.
  - pose proof (send_cache w2 endpoint o st1) as Hc. rewrite Hget in Hc.
    rewrite (getCachedResponse_fresh _ _ _ _ e) in Hc by done.
    unfold apiRequest. destruct (send w2 endpoint o st1) as [st2 req].
    simpl in *. rewrite Hfetch2. unfold receive. rewrite Hs. simpl.
    rewrite Hc, (getCachedResponse_fresh _ _ _ _ e) by done. done.
  - rewrite send_headers, Hget.
    rewrite (getCachedResponse_fresh _ _ _ _ e) by done. cbn [fst snd].
    replace (etag e) with tag by done.
    by rewrite Htruthy, lookup_insert_eq.
Qed.

(** C6 (as amended). A call creates or overwrites a cache entry exactly
    when it is a GET answered by a successful response whose body parses and
    which carries a non-empty ETag: the entry is then
    stored under the full URL with the parsed payload, the ETag and the
    current time; in every other case (no ETag, an unsuccessful answer, a
    failed transport, a POST, PUT or DELETE) every entry of the resulting
    map was in the map before, unchanged. *)
Theorem cache_entry_stored_exactly_on_cacheable_get w endpoint o st :
  match cacheable o (fetch w (send w endpoint o st).2) with
  | Some (parsed, tag) =>
      apiCache (apiRequest w endpoint o st).1
      = <[API_BASE_URL +:+ endpoint :=
            {| data := parsed; etag := tag; timestamp := t_store w |}]>
          (apiCache st)
  | None => apiCache (apiRequest w endpoint o st).1 ⊆ apiCache st
  end.
Proof.
  unfold apiRequest.
  pose proof (send_cache w endpoint o st) as Hc.
  pose proof (send_cache_subseteq w endpoint o st) as Hsub.
  destruct (send w endpoint o st) as [st1 req]. simpl in *.
  destruct (fetch w req) as [m|r]; simpl; [done|].
  unfold receive. destruct (status r =? 304) eqn:E.
  - apply Z.eqb_eq in E.
    assert (ok r = false) as Hok by (unfold ok; rewrite E; done).
    assert (match json r, hdr_ETag r with
            | inr parsed, Some e0 =>
                if is_get o && ok r && truthy e0 then Some (parsed, e0) else None
            | _, _ => None
            end = None) as ->.
    { rewrite Hok, andb_false_r.
      destruct (json r); [done|]. by destruct (hdr_ETag r). }
    pose proof (getCachedResponse_subseteq (t_response w)
                  (API_BASE_URL +:+ endpoint) default_maxAge (apiCache st1))
      as Hsub2.
    destruct (getCachedResponse _ _ _ (apiCache st1)) as [c2 [e|]]; simpl in *.
    + by etrans.
    + destruct (json r) as [m|parsed]; simpl; [by etrans|].
      etrans; [apply on_body_cache_subseteq; by rewrite Hok|]. simpl.
      by etrans.
  - destruct (json r) as [m|parsed]; simpl; [done|].
    replace (with_cache (apiCache st1) st1) with st1 by (by destruct st1).
    destruct (is_get o && ok r) eqn:Hstore.
    + apply andb_true_iff in Hstore as [Hget Hok].
      pose proof (ok_status r Hok) as Hrange.
      unfold on_body. destruct (status r =? 401) eqn:E401; [lia|].
      rewrite Hok, Hget. simpl.
      unfold invalidate. rewrite (is_get_not_mutation o Hget).
      destruct (hdr_ETag r) as [tag|]; simpl; [|done].
      destruct (truthy tag); simpl; [|done].
      unfold setCachedResponse. rewrite Hc, Hget.
      apply insert_after_lookup.
    + assert (match hdr_ETag r with
              | Some e0 => if false && truthy e0 then Some (parsed, e0) else None
              | None => None
              end = None) as -> by (by destruct (hdr_ETag r)).
      etrans; [apply on_body_cache_subseteq; by rewrite andb_comm|]. done.
Qed.

(** C1 (as amended). A successful POST, PUT or DELETE (2xx, its body
    parsed) ends in [on_body], the synchronous step that follows the last
    [await]: it returns the response to the caller together with a cache
    from which the dependent entries are already gone: when the endpoint includes
    ['/books'], every entry whose key includes ['/books'] or
    ['/statistics']; when it includes ['/borrow-records'] and not
    ['/books'], every entry whose key includes ['/borrow-records'],
    ['/books'] or ['/statistics']. *)
Theorem mutation_purges_dependent_entries w endpoint o st r parsed :
  is_mutation o = true →
  fetch w (send w endpoint o st).2 = Resolves r →
  ok r = true →
  json r = inr parsed →
  apiRequest w endpoint o st
    = on_body w endpoint o r parsed (send w endpoint o st).1 ∧
  (apiRequest w endpoint o st).2
    = Some {| response := Real r; result := parsed |} ∧
  ∀ k : string,
    (includes endpoint "/books" = true →
     includes k "/books" || includes k "/statistics" = true →
     apiCache (apiRequest w endpoint o st).1 !! k = None) ∧
    (includes endpoint "/books" = false →
     includes endpoint "/borrow-records" = true →
     includes k "/borrow-records" || includes k "/books"
       || includes k "/statistics" = true →
     apiCache (apiRequest w endpoint o st).1 !! k = None).
Proof.
  intros Hmut Hfetch Hok Hj.
  pose proof (is_mutation_not_get o Hmut) as Hget.
  pose proof (ok_status r Hok) as Hrange.
  pose proof (send_cache w endpoint o st) as Hc. rewrite Hget in Hc.
  unfold apiRequest. destruct (send w endpoint o st) as [st1 req].
  simpl in *. rewrite Hfetch.
  rewrite receive_parsed with (parsed := parsed) by (done || lia).
  split; [done|].
  unfold on_body. destruct (status r =? 401) eqn:E401; [lia|].
  rewrite Hok, Hget. simpl. split; [done|].
  intros k. unfold invalidate. rewrite Hmut, Hc. split.
  - intros -> Hk. rewrite !clearCache_lookup.
    destruct (includes k "/statistics"); [done|].
    destruct (includes k "/books"); done.
  - intros -> -> Hk. rewrite !clearCache_lookup.
    destruct (includes k "/statistics"); [done|].
    destruct (includes k "/books"); [done|].
    destruct (includes k "/borrow-records"); done.
Qed.

(** C2 (as amended). A GET to a URL whose entry is unexpired both when the
    request is sent and when the 304 is handled returns exactly the cached
    payload, and leaves the cache map as it was: the entry keeps its
    payload, its ETag and its timestamp. *)
Theorem not_modified_serves_cached_entry w endpoint o st e r :
  is_get o = true →
  apiCache st !! (API_BASE_URL +:+ endpoint) = Some e →
  expired (t_lookup w) e default_maxAge = false →
  expired (t_response w) e default_maxAge = false →
  fetch w (send w endpoint o st).2 = Resolves r →
  status r = 304 →
  (apiRequest w endpoint o st).2
    = Some {| response := Synthetic200; result := data e |} ∧
  apiCache (apiRequest w endpoint o st).1 = apiCache st ∧
  apiCache (apiRequest w endpoint o st).1 !! (API_BASE_URL +:+ endpoint)
    = Some e.
Proof.
  intros Hget He Hfresh1 Hfresh2 Hfetch Hs.
  pose proof (send_cache w endpoint o st) as Hc. rewrite Hget in Hc.
  rewrite (getCachedResponse_fresh _ _ _ _ e) in Hc by done.
  unfold apiRequest. destruct (send w endpoint o st) as [st1 req].
  simpl in *. rewrite Hfetch. unfold receive. rewrite Hs. simpl.
  rewrite Hc, (getCachedResponse_fresh _ _ _ _ e) by done. done.
Qed.

End CacheLayer.

(** The sample client's cached book list is older than 60 seconds at time
    61001: the lookup purges it and the request is unconditional. *)
Lemma expired_entry_purged_witness :
  getCachedResponse 61001 books_url 60 sample_cache
    = (delete books_url sample_cache, None) ∧
  (60 = default_maxAge →
   apiCache (send (world 61001 61002 61003 (Rejects "offline"))
               "/books?page=1&per_page=10" get_options sample_client).1
     = delete books_url sample_cache ∧
   url (send (world 61001 61002 61003 (Rejects "offline"))
          "/books?page=1&per_page=10" get_options sample_client).2 = books_url ∧
   headers (config (send (world 61001 61002 61003 (Rejects "offline"))
                      "/books?page=1&per_page=10" get_options sample_client).2)
     !! "If-None-Match" = None).
Proof.
  apply (expired_entry_purged_and_unconditional
           (world 61001 61002 61003 (Rejects "offline"))
           "/books?page=1&per_page=10" get_options sample_client books_entry 60).
  - reflexivity.
  - vm_compute. reflexivity.
  - simpl. lia.
  - reflexivity.
Defined.

(** Thirty seconds after it was stored the sample book list is still fresh:
    the GET carries its ETag. *)
Lemma fresh_entry_conditional_witness :
  let w := world 30000 30050 30051 (Rejects "offline") in
  let sent := send w "/books?page=1&per_page=10" get_options sample_client in
  url sent.2 = books_url ∧
  headers (config sent.2) !! "If-None-Match" = Some "b1" ∧
  network (apiRequest w "/books?page=1&per_page=10" get_options sample_client).1
    = [sent.2] ∧
  apiRequest w "/books?page=1&per_page=10" get_options sample_client
    = receive w "/books?page=1&per_page=10" get_options (fetch w sent.2) sent.1.
Proof.
  apply (fresh_entry_sends_conditional_request
           (world 30000 30050 30051 (Rejects "offline"))
           "/books?page=1&per_page=10" get_options sample_client books_entry);
    vm_compute; reflexivity.
Defined.

(** A 401 on the statistics request empties the whole sample cache. *)
Lemma unauthorized_witness :
  let w := world 1000 1001 1002
             (Resolves (reply 401 None (inr "token expired"))) in
  let out := apiRequest w "/statistics" get_options sample_client in
  out.2 = None ∧
  apiCache out.1 = ∅ ∧
  getToken out.1 = None ∧
  localStorage out.1
    = delete "username" (delete "jwt_token" (localStorage sample_client)) ∧
  ui out.1 = ui sample_client
             ++ [Alert "Session expired. Please login again." "error";
                 SwitchView "login"].
Proof.
  apply (unauthorized_clears_cache_and_token
           (world 1000 1001 1002
              (Resolves (reply 401 None (inr "token expired"))))
           "/statistics" get_options sample_client
           (reply 401 None (inr "token expired")) "token expired");
    reflexivity.
Defined.

(** A 304 handled after the sample book list has expired. *)
Lemma not_modified_without_entry_witness :
  let w := world 59000 61001 61002
             (Resolves (reply 304 None (inl "Unexpected end of JSON input"))) in
  let out := receive w "/books?page=1&per_page=10" get_options
               (Resolves (reply 304 None (inl "Unexpected end of JSON input")))
               sample_client in
  out.2 = None ∧
  ui out.1 = ui sample_client
             ++ [Alert ("Connection error: " +:+ "Unexpected end of JSON input")
                   "error"] ∧
  apiCache out.1
    = delete (API_BASE_URL +:+ "/books?page=1&per_page=10")
        (apiCache sample_client).
Proof.
  apply (not_modified_without_entry_returns_null
           (world 59000 61001 61002
              (Resolves (reply 304 None (inl "Unexpected end of JSON input"))))
           "/books?page=1&per_page=10" get_options sample_client
           (reply 304 None (inl "Unexpected end of JSON input"))
           "Unexpected end of JSON input").
  - reflexivity.
  - reflexivity.
  - reflexivity.
  - intros e He. vm_compute in He. injection He as <-. reflexivity.
Defined.

(** The network is down while the sample book list is still fresh. *)
Lemma transport_failure_witness :
  let w := world 30000 30050 30051 (Rejects "Failed to fetch") in
  let out := apiRequest w "/books?page=1&per_page=10" get_options
               sample_client in
  out.2 = None ∧
  localStorage out.1 = localStorage sample_client ∧
  ui out.1 = ui sample_client
             ++ [Alert ("Connection error: " +:+ "Failed to fetch") "error"] ∧
  (apiCache out.1 = apiCache sample_client ∨
   ∃ e, apiCache sample_client !! (API_BASE_URL +:+ "/books?page=1&per_page=10")
          = Some e ∧
        (expired 30000 e default_maxAge = true ∨
         expired 30050 e default_maxAge = true) ∧
        apiCache out.1
          = delete (API_BASE_URL +:+ "/books?page=1&per_page=10")
              (apiCache sample_client)).
Proof.
  apply (transport_failure_frame
           (world 30000 30050 30051 (Rejects "Failed to fetch"))
           "/books?page=1&per_page=10" get_options sample_client
           "Failed to fetch").
  left. reflexivity.
Defined.

(** Creating a book purges the cached book list and statistics. *)
Lemma mutation_purges_witness :
  let w := world 1000 1001 1002 (Resolves (reply 201 None (inr "created"))) in
  let out := apiRequest w "/books" post_options sample_client in
  out = on_body w "/books" post_options (reply 201 None (inr "created"))
          "created" (send w "/books" post_options sample_client).1 ∧
  out.2 = Some {| response := Real (reply 201 None (inr "created"));
                  result := "created" |} ∧
  ∀ k : string,
    (includes "/books" "/books" = true →
     includes k "/books" || includes k "/statistics" = true →
     apiCache out.1 !! k = None) ∧
    (includes "/books" "/books" = false →
     includes "/books" "/borrow-records" = true →
     includes k "/borrow-records" || includes k "/books"
       || includes k "/statistics" = true →
     apiCache out.1 !! k = None).
Proof.
  apply (mutation_purges_dependent_entries
           (world 1000 1001 1002 (Resolves (reply 201 None (inr "created"))))
           "/books" post_options sample_client
           (reply 201 None (inr "created")) "created");
    reflexivity.
Defined.

(** A 304 for the sample book list, thirty seconds after it was stored. *)
Lemma not_modified_witness :
  let w := world 30000 30050 30051
             (Resolves (reply 304 None (inl "Unexpected end of JSON input"))) in
  let out := apiRequest w "/books?page=1&per_page=10" get_options
               sample_client in
  out.2 = Some {| response := Synthetic200; result := "books, page 1" |} ∧
  apiCache out.1 = apiCache sample_client ∧
  apiCache out.1 !! (API_BASE_URL +:+ "/books?page=1&per_page=10")
    = Some books_entry.
Proof.
  apply (not_modified_serves_cached_entry
           (world 30000 30050 30051
              (Resolves (reply 304 None (inl "Unexpected end of JSON input"))))
           "/books?page=1&per_page=10" get_options sample_client books_entry
           (reply 304 None (inl "Unexpected end of JSON input")));
    vm_compute; reflexivity.
Defined.

(** C1, as stated, fails: a POST to an endpoint that includes both
    ['/books'] and ['/borrow-records'] takes the first branch only, and the
    cached borrow records survive it. *)
Lemma borrow_records_purge_counterexample :
  ¬ (∀ (w : World string) (endpoint : string) (o : Options)
       (st : Client string) (r : Response string) (parsed k : string),
       is_mutation o = true →
       fetch w (send w endpoint o st).2 = Resolves r →
       ok r = true →
       json r = inr parsed →
       includes endpoint "/borrow-records" = true →
       includes k "/borrow-records" || includes k "/books"
         || includes k "/statistics" = true →
       apiCache (apiRequest w endpoint o st).1 !! k = None).
Proof.
  intros H.
  specialize (H (world 1000 1001 1002 (Resolves (reply 201 None (inr "created"))))
                "/books/7/borrow-records" post_options sample_client
                (reply 201 None (inr "created")) "created" records_url).
  vm_compute in H.
  discriminate (H eq_refl eq_refl eq_refl eq_refl eq_refl eq_refl).
Qed.

(** C2, as stated, fails: the 304 leaves the timestamp of the entry where it
    was, older than the call. *)
Lemma timestamp_refresh_counterexample :
  ¬ (∀ (w : World string) (endpoint : string) (o : Options)
       (st : Client string) (e : CacheEntry string) (r : Response string),
       is_get o = true →
       apiCache st !! (API_BASE_URL +:+ endpoint) = Some e →
       expired (t_lookup w) e default_maxAge = false →
       fetch w (send w endpoint o st).2 = Resolves r →
       status r = 304 →
       ∃ e', apiCache (apiRequest w endpoint o st).1
               !! (API_BASE_URL +:+ endpoint) = Some e' ∧
             data e' = data e ∧ etag e' = etag e ∧
             t_lookup w ≤ timestamp e').
Proof.
  intros H.
  destruct (H (world 30000 30050 30051
                 (Resolves (reply 304 None (inl "Unexpected end of JSON input"))))
              "/books?page=1&per_page=10" get_options sample_client books_entry
              (reply 304 None (inl "Unexpected end of JSON input")))
    as (e' & He' & _ & _ & Hts); try reflexivity.
  vm_compute in He'. injection He' as <-. simpl in Hts. lia.
Qed.

(** C7, as stated, fails: the lookup that precedes the request purges an
    expired entry, and the cache map is no longer what it was when the
    network turns out to be down. *)
Lemma transport_failure_counterexample :
  ¬ (∀ (w : World string) (endpoint : string) (o : Options)
       (st : Client string) (message : string),
       fetch w (send w endpoint o st).2 = Rejects message →
       apiCache (apiRequest w endpoint o st).1 = apiCache st ∧
       localStorage (apiRequest w endpoint o st).1 = localStorage st).
Proof.
  intros H.
  destruct (H (world 61001 61002 61003 (Rejects "Failed to fetch"))
              "/books?page=1&per_page=10" get_options sample_client
              "Failed to fetch" eq_refl) as [Hcache _].
  apply (f_equal (fun m => m !! books_url)) in Hcache.
  vm_compute in Hcache. discriminate.
Qed.

(** C3, as stated, fails: the body of a response is parsed before its
    status is looked at, and a 401 whose body does not parse ends in the
    [catch] block, the cache and the token left as they were. *)
Lemma unauthorized_unparsed_counterexample :
  ¬ (∀ (w : World string) (endpoint : string) (o : Options)
       (st : Client string) (r : Response string),
       fetch w (send w endpoint o st).2 = Resolves r →
       status r = 401 →
       apiCache (apiRequest w endpoint o st).1 = ∅ ∧
       getToken (apiRequest w endpoint o st).1 = None).
Proof.
  intros H.
  destruct (H (world 1000 1001 1002
                 (Resolves (reply 401 None (inl "Unexpected token < in JSON"))))
              "/statistics" get_options sample_client
              (reply 401 None (inl "Unexpected token < in JSON"))
              eq_refl eq_refl) as [_ Htoken].
  vm_compute in Htoken. discriminate.
Qed.

(** C6, as stated, fails: a GET answered 200 with an ETag stores nothing
    when the body does not parse. *)
Lemma etag_unparsed_counterexample :
  ¬ (∀ (w : World string) (endpoint : string) (o : Options)
       (st : Client string) (r : Response string) (tag : string),
       is_get o = true →
       fetch w (send w endpoint o st).2 = Resolves r →
       ok r = true →
       hdr_ETag r = Some tag →
       truthy tag = true →
       ∃ e, apiCache (apiRequest w endpoint o st).1
              !! (API_BASE_URL +:+ endpoint) = Some e ∧
            etag e = tag).
Proof.
  intros H.
  destruct (H (world 1000 1001 1002
                 (Resolves (reply 200 (Some "s2")
                              (inl "Unexpected token < in JSON"))))
              "/statistics" get_options fresh_client
              (reply 200 (Some "s2") (inl "Unexpected token < in JSON")) "s2"
              eq_refl eq_refl eq_refl eq_refl eq_refl) as (e & He & _).
  vm_compute in He. discriminate.
Qed.

(* ===================================================================== *)
(** ** The inventory rules keep the store consistent *)
(* ===================================================================== *)

Section InventoryFacts.

Import Inventory.

Variable malformed : string -> bool.

Lemma borrowedCount_nonneg (id : nat) (rs : list BorrowRecord) :
  0 ≤ borrowedCount id rs.
Proof.
  induction rs as [|r rs IH]; simpl; [lia|].
  destruct (borrowed_for id r); lia.
Qed.

Lemma borrowedCount_app (id : nat) (rs1 rs2 : list BorrowRecord) :
  borrowedCount id (rs1 ++ rs2) = borrowedCount id rs1 + borrowedCount id rs2.
Proof. induction rs1 as [|r rs1 IH]; simpl; lia. Qed.

Lemma borrowed_for_true (id : nat) (r : BorrowRecord) :
  borrowed_for id r = true ↔ book_id r = id ∧ is_borrowed r = true.
Proof.
  unfold borrowed_for. rewrite andb_true_iff, Nat.eqb_eq. done.
Qed.

(** No record on loan for the book: its borrowed count is zero. *)
Lemma borrowedCount_zero (id : nat) (rs : list BorrowRecord) :
  (∀ r, r ∈ rs → is_borrowed r = true → book_id r ≠ id) →
  borrowedCount id rs = 0.
Proof.
  induction rs as [|r rs IH]; intros Hnone; simpl; [done|].
  rewrite IH by (intros r' Hr'; apply Hnone; by right).
  destruct (borrowed_for id r) eqn:Hb; [|done].
  apply borrowed_for_true in Hb as [Hid Hon].
  destruct (Hnone r); [by left|done|done].
Qed.

Lemma existsb_borrowed_for_false (id : nat) (rs : list BorrowRecord) (r : BorrowRecord) :
  existsb (borrowed_for id) rs = false →
  r ∈ rs → is_borrowed r = true → book_id r ≠ id.
Proof.
  intros Hex Hin Hon Hid.
  assert (existsb (borrowed_for id) rs = true) as Htrue; [|congruence].
  apply existsb_exists. exists r. split; [by apply list_elem_of_In|].
  by apply borrowed_for_true.
Qed.

(** Marking a record on loan as returned takes one off the borrowed count
    of its book, and nothing off the others. *)
Lemma borrowedCount_mark_returned (id : nat) (now : Z)
    (rs : list BorrowRecord) (i : nat) (r : BorrowRecord) :
  rs !! i = Some r → is_borrowed r = true →
  borrowedCount id (<[i := mark_returned now r]> rs)
  = borrowedCount id rs - (if Nat.eqb (book_id r) id then 1 else 0).
Proof.
  revert i. induction rs as [|r0 rs IH]; intros i Hi Hon; [done|].
  destruct i as [|i]; simpl in *.
  - injection Hi as ->. unfold borrowed_for. rewrite Hon. simpl.
    rewrite andb_false_r, andb_true_r. destruct (book_id r =? id)%nat; lia.
  - rewrite (IH i) by done. lia.
Qed.

Lemma empty_store_consistent : consistent empty_store.
Proof.
  split; [|split]; simpl.
  - intros id b H. by rewrite lookup_empty in H.
  - intros r H. by apply elem_of_nil in H.
  - intros id [b H]. by rewrite lookup_empty in H.
Qed.

Lemma createBook_consistent t a i q now s s' :
  consistent s → createBook t a i q now s = Applied s' → consistent s'.
Proof.
  intros (Hbooks & Hrecs & Hids). unfold createBook.
  destruct (isbn_present i (books s)); [done|].
  destruct (negb (valid_isbn i) || (q <? 0)) eqn:Hv; [done|].
  apply orb_false_iff in Hv as [_ Hq]. apply Z.ltb_ge in Hq.
  intros [= <-]. split; [|split]; simpl.
  - intros id b. rewrite lookup_insert_Some.
    intros [[<- <-] | [Hne Hb]]; simpl; [|by apply Hbooks].
    rewrite borrowedCount_zero; [lia|].
    intros r Hr Hon Hid. specialize (Hids _ (Hrecs r Hr Hon)). lia.
  - intros r Hr Hon. apply lookup_insert_is_Some'. right. by apply Hrecs.
  - intros id. rewrite lookup_insert_is_Some'.
    intros [<- | Hid]; [lia|]. specialize (Hids _ Hid). lia.
Qed.

Lemma updateBook_consistent bookId newQuantity s s' :
  consistent s → updateBook bookId newQuantity s = Applied s' → consistent s'.
Proof.
  intros (Hbooks & Hrecs & Hids). unfold updateBook.
  destruct (books s !! bookId) as [b|] eqn:Hb; [|done].
  destruct (newQuantity <? quantity b - available b) eqn:Hq; [done|].
  apply Z.ltb_ge in Hq. intros [= <-].
  destruct (Hbooks _ _ Hb) as [Hpos Hsum].
  split; [|split]; simpl.
  - intros id b'. rewrite lookup_insert_Some.
    intros [[<- <-] | [Hne Hb']]; simpl; [lia|by apply Hbooks].
  - intros r Hr Hon. apply lookup_insert_is_Some'. right. by apply Hrecs.
  - intros id. rewrite lookup_insert_is_Some'.
    intros [<- | Hid]; apply Hids; [by exists b|done].
Qed.

Lemma borrow_consistent bookId name email now s s' :
  consistent s →
  borrow malformed bookId name email now s = Applied s' → consistent s'.
Proof.
  intros (Hbooks & Hrecs & Hids). unfold borrow.
  destruct (rejected malformed name || rejected malformed email); [done|].
  destruct (books s !! bookId) as [b|] eqn:Hb; [|done].
  destruct (available b <=? 0) eqn:Ha; [done|].
  apply Z.leb_gt in Ha. intros [= <-].
  destruct (Hbooks _ _ Hb) as [Hpos Hsum].
  split; [|split]; simpl.
  - intros id b'. rewrite borrowedCount_app. simpl. unfold borrowed_for.
    simpl. rewrite andb_true_r, lookup_insert_Some.
    intros [[<- <-] | [Hne Hb']]; simpl.
    + rewrite Nat.eqb_refl. lia.
    + destruct (Nat.eqb_spec bookId id); [done|].
      destruct (Hbooks _ _ Hb'). lia.
  - intros r. rewrite elem_of_app, list_elem_of_singleton.
    intros [Hr | ->] Hon; apply lookup_insert_is_Some'.
    + right. by apply Hrecs.
    + by left.
  - intros id. rewrite lookup_insert_is_Some'.
    intros [<- | Hid]; apply Hids; [by exists b|done].
Qed.

Lemma returnBook_consistent recordId now s s' :
  consistent s → returnBook recordId now s = Applied s' → consistent s'.
Proof.
  intros (Hbooks & Hrecs & Hids). unfold returnBook.
  destruct (records s !! recordId) as [r|] eqn:Hr; [|done].
  destruct (is_borrowed r) eqn:Hon; [|done].
  destruct (Hrecs r (list_elem_of_lookup_2 _ _ _ Hr) Hon) as [b Hb].
  rewrite Hb. intros [= <-].
  destruct (Hbooks _ _ Hb) as [Hpos Hsum].
  split; [|split]; cbn [books records next_book_id].
  - intros id b'.
    rewrite (borrowedCount_mark_returned id now (records s) recordId r Hr Hon).
    rewrite lookup_insert_Some.
    intros [[<- <-] | [Hne Hb']]; cbn [available quantity].
    + rewrite Nat.eqb_refl. lia.
    + destruct (Nat.eqb_spec (book_id r) id); [done|].
      destruct (Hbooks _ _ Hb'). lia.
  - intros r' Hr' Hon'. apply lookup_insert_is_Some'. right.
    apply list_elem_of_lookup in Hr' as [j Hj].
    apply list_lookup_insert_Some in Hj as [(_ & <- & _) | [_ Hj]]; [done|].
    apply Hrecs; [|done]. by apply list_elem_of_lookup_2 with j.
  - intros id. rewrite lookup_insert_is_Some'.
    intros [<- | Hid]; apply Hids; [by exists b|done].
Qed.

Lemma deleteBook_consistent bookId s s' :
  consistent s → deleteBook bookId s = Applied s' → consistent s'.
Proof.
  intros (Hbooks & Hrecs & Hids). unfold deleteBook.
  destruct (books s !! bookId) as [b|] eqn:Hb; [|done].
  destruct (existsb (borrowed_for bookId) (records s)) eqn:Hex; [done|].
  intros [= <-]. split; [|split]; simpl.
  - intros id b'. rewrite lookup_delete_Some. intros [_ Hb']. by apply Hbooks.
  - intros r Hr Hon. apply lookup_delete_is_Some. split; [|by apply Hrecs].
    intros Heq. by apply (existsb_borrowed_for_false bookId (records s) r).
  - intros id. rewrite lookup_delete_is_Some. intros [_ Hid]. by apply Hids.
Qed.

Lemma step_consistent (s : Store) (op : Op) :
  consistent s → consistent (step malformed s op).
Proof.
  intros Hs. unfold step.
  destruct (apply_op malformed op s) as [s'|err] eqn:Hop; [|done].
  destruct op; simpl in Hop.
  - by eapply createBook_consistent.
  - by eapply updateBook_consistent.
  - by eapply borrow_consistent.
  - by eapply returnBook_consistent.
  - by eapply deleteBook_consistent.
Qed.

Lemma run_consistent (ops : list Op) (s : Store) :
  consistent s → consistent (run malformed ops s).
Proof.
  revert s. induction ops as [|op ops IH]; intros s Hs; [done|].
  simpl. apply IH. by apply step_consistent.
Qed.

(** C8. After every sequence of inventory operations (create, update,
    borrow, return, delete; the refused ones leaving the store as it was),
    every book of the store has [0 ≤ available ≤ quantity]. *)
Theorem available_within_quantity (ops : list Op) (id : nat) (b : Book) :
  books (run malformed ops empty_store) !! id = Some b →
  0 ≤ available b ≤ quantity b.
Proof.
  intros Hb.
  destruct (run_consistent ops empty_store empty_store_consistent)
    as (Hbooks & _ & _).
  destruct (Hbooks _ _ Hb) as [Hpos Hsum].
  pose proof (borrowedCount_nonneg id (records (run malformed ops empty_store))).
  lia.
Qed.

End InventoryFacts.

(** The sample history leaves the one book with 4 of its 5 copies
    available. *)
Lemma available_within_quantity_witness :
  0 ≤ Inventory.available sample_book ≤ Inventory.quantity sample_book.
Proof.
  apply (available_within_quantity accept_all sample_ops 0%nat sample_book).
  vm_compute. reflexivity.
Defined.

(** What a call stores, on the sample client: a 200 with an ETag replaces
    the entry of the URL; a 200 without one and a POST store nothing. *)
Example get_with_etag_stores :
  apiCache (apiRequest
              (world 30000 30050 30051
                 (Resolves (reply 200 (Some "s2") (inr "new statistics"))))
              "/statistics" get_options sample_client).1 !! statistics_url
  = Some {| data := "new statistics"; etag := "s2"; timestamp := 30051 |}.
Proof. vm_compute. reflexivity. Qed.

Example get_without_etag_stores_nothing :
  apiCache (apiRequest
              (world 30000 30050 30051
                 (Resolves (reply 200 None (inr "new statistics"))))
              "/statistics" get_options sample_client).1
  = sample_cache.
Proof. vm_compute. reflexivity. Qed.

Example post_stores_nothing :
  apiCache (apiRequest
              (world 30000 30050 30051
                 (Resolves (reply 201 (Some "x1") (inr "created"))))
              "/auth/refresh" post_options sample_client).1
  = sample_cache.
Proof. vm_compute. reflexivity. Qed.

(** With no copy left, a loan is refused as out of stock; with a copy on
    loan, the book cannot be deleted. *)
Example borrow_out_of_stock :
  Inventory.apply_op accept_all (Inventory.Borrow 0 "Chi" "chi@example.org" 400)
    (Inventory.run accept_all (firstn 3 sample_ops) Inventory.empty_store)
  = Inventory.Refused Inventory.OutOfStock.
Proof. vm_compute. reflexivity. Qed.

Example delete_while_borrowed :
  Inventory.apply_op accept_all (Inventory.DeleteBook 0)
    (Inventory.run accept_all (firstn 6 sample_ops) Inventory.empty_store)
  = Inventory.Refused Inventory.Conflict.
Proof. vm_compute. reflexivity. Qed.

(* ===================================================================== *)
(** ** More on strings *)
(* ===================================================================== *)

Lemma append_assoc (a b c : string) : (a +:+ b) +:+ c = a +:+ (b +:+ c).
Proof.
  induction a as [|x a IH]; [done|].
  by rewrite !append_cons, IH.
Qed.

Lemma includes_middle (a p b : string) : includes (a +:+ p +:+ b) p = true.
Proof. apply includes_spec. by exists a, b. Qed.

(** A substring of a part is a substring of the whole. *)
Lemma includes_app (a s b p : string) :
  includes s p = true → includes (a +:+ s +:+ b) p = true.
Proof.
  rewrite !includes_spec. intros (x & y & ->).
  exists (a +:+ x), (y +:+ b). by rewrite !append_assoc.
Qed.

Lemma includes_app_r (a s p : string) :
  includes s p = true → includes (a +:+ s) p = true.
Proof.
  rewrite !includes_spec. intros (x & y & ->).
  exists (a +:+ x), y. by rewrite !append_assoc.
Qed.

(** Where the pattern does not start at the first character, the search
    goes on from the second. *)
Lemma includes_skip (a : Ascii.ascii) (s p : string) :
  String.prefix p (String a s) = false →
  includes (String a s) p = includes s p.
Proof.
  intros H.
  change (includes (String a s) p)
    with (String.prefix p (String a s) || includes s p).
  by rewrite H.
Qed.

Lemma string_drop_app (p s : string) :
  string_drop (String.length p) (p +:+ s) = s.
Proof. induction p as [|x p IH]; [done|]. by rewrite append_cons. Qed.

(** Cutting a prefix out gives back what follows it. *)
Lemma remove_first_prefix (p s : string) : remove_first (p +:+ s) p = s.
Proof.
  assert (String.prefix p (p +:+ s) = true) as Hp
    by (apply prefix_spec; by exists s).
  destruct (p +:+ s) as [|x t] eqn:E.
  - change (remove_first "" p)
      with (if String.prefix p "" then string_drop (String.length p) ""
            else ""). rewrite Hp, <- E. apply string_drop_app.
  - change (remove_first (String x t) p)
      with (if String.prefix p (String x t)
            then string_drop (String.length p) (String x t)
            else String x (remove_first t p)).
    rewrite Hp, <- E. apply string_drop_app.
Qed.

Lemma prefix_cons_eq (a : Ascii.ascii) (p s : string) :
  String.prefix (String a p) (String a s) = String.prefix p s.
Proof.
  change (String.prefix (String a p) (String a s))
    with (if Ascii.ascii_dec a a then String.prefix p s else false).
  by destruct (Ascii.ascii_dec a a).
Qed.

Lemma prefix_cons_ne (a b : Ascii.ascii) (p s : string) :
  a ≠ b → String.prefix (String a p) (String b s) = false.
Proof.
  intros Hne.
  change (String.prefix (String a p) (String b s))
    with (if Ascii.ascii_dec a b then String.prefix p s else false).
  by destruct (Ascii.ascii_dec a b).
Qed.

(** No ['/books'] in a run of digits followed by ['/return']. *)
Lemma includes_decimal_return (id : string) :
  decimal id = true → includes (id +:+ "/return") "/books" = false.
Proof.
  induction id as [|d id IH]; [done|].
  intros H. change (decimal (String d id)) with (digit d && decimal id) in H.
  apply andb_true_iff in H as [Hd Hid].
  rewrite append_cons, includes_skip; [by apply IH|].
  apply prefix_cons_ne. intros <-. discriminate Hd.
Qed.

Lemma returnBook_endpoint_branch (recordId : string) :
  decimal recordId = true →
  includes (returnBook_endpoint recordId) "/books" = false ∧
  includes (returnBook_endpoint recordId) "/borrow-records" = true.
Proof.
  intros Hid. split.
  - unfold returnBook_endpoint.
    rewrite !append_cons, append_nil.
    do 15 (rewrite includes_skip by reflexivity).
    rewrite includes_skip; [by apply includes_decimal_return|].
    destruct recordId as [|d id]; [done|].
    rewrite append_cons.
    change (decimal (String d id)) with (digit d && decimal id) in Hid.
    apply andb_true_iff in Hid as [Hd _].
    rewrite prefix_cons_eq. apply prefix_cons_ne. intros <-. discriminate Hd.
  - apply (includes_middle "" "/borrow-records" ("/" +:+ recordId +:+ "/return")).
Qed.

(* ===================================================================== *)
(** ** The client beyond the cache states: requests, session, page *)
(* ===================================================================== *)

Section ClientAtLarge.

Context {Payload : Type}.
Implicit Types (w : World Payload) (st : Client Payload)
  (e : CacheEntry Payload) (r : Response Payload) (o : Options)
  (c : gmap string (CacheEntry Payload)).

(** X1. What [setCachedResponse] stores is what [getCachedResponse] serves,
    the map untouched, up to and including [maxAge] seconds later; after
    that the lookup misses and the entry is gone. *)
Theorem stored_entry_served_until_maxAge (now now' : Z) (u : string)
    (d : Payload) (tag : string) (maxAge : Z) c :
  getCachedResponse now' u maxAge (setCachedResponse now u d tag c)
  = if 1000 * maxAge <? now' - now
    then (delete u c, None)
    else (setCachedResponse now u d tag c,
          Some {| data := d; etag := tag; timestamp := now |}).
Proof.
  unfold getCachedResponse, setCachedResponse, expired.
  rewrite lookup_insert_eq. simpl.
  destruct (1000 * maxAge <? now' - now); [|done].
  by rewrite delete_insert_eq.
Qed.

(** X2. Clearing by two patterns removes the entries whose key includes
    either, in whichever order the two calls are made; clearing twice by
    the same pattern is clearing once. *)
Theorem clearCache_twice (p q : string) c :
  (∀ k : string,
     clearCache (Some p) (clearCache (Some q) c) !! k
     = if includes k p || includes k q then None else c !! k) ∧
  clearCache (Some p) (clearCache (Some q) c)
    = clearCache (Some q) (clearCache (Some p) c) ∧
  clearCache (Some p) (clearCache (Some p) c) = clearCache (Some p) c.
Proof.
  assert (∀ (a b : string) (k : string),
            clearCache (Some a) (clearCache (Some b) c) !! k
            = if includes k a || includes k b then None else c !! k) as Hk.
  { intros a b k. rewrite !clearCache_lookup.
    by destruct (includes k a), (includes k b). }
  split; [apply Hk|]. split; apply map_eq; intros k.
  - rewrite !Hk. by rewrite orb_comm.
  - rewrite Hk, clearCache_lookup. by destruct (includes k p).
Qed.

(** X3. The age column of the cache status table against the expiry test:
    an entry shown younger than 60 seconds is still served, one shown older
    than 60 is purged by the next lookup, and no entry shown younger than 60
    is ever purged. *)
Theorem age_shown_against_expiry (now : Z) e :
  (age_shown now e < default_maxAge → expired now e default_maxAge = false) ∧
  (default_maxAge < age_shown now e → expired now e default_maxAge = true) ∧
  (expired now e default_maxAge = true → default_maxAge ≤ age_shown now e).
Proof.
  unfold age_shown, expired, default_maxAge.
  pose proof (Z.div_mod (now - timestamp e) 1000 ltac:(lia)) as Hdiv.
  pose proof (Z.mod_pos_bound (now - timestamp e) 1000 ltac:(lia)) as Hmod.
  repeat split.
  - intros H. apply Z.ltb_ge. lia.
  - intros H. apply Z.ltb_lt. lia.
  - intros H%Z.ltb_lt. lia.
Qed.

(** X4. The session round trip: a token set is the token read; the user
    counts as authenticated exactly when the stored token is not empty;
    removing the token removes the user name with it, and nothing else of
    [localStorage]; none of this touches the cache. *)
Theorem session_round_trip (token : string) st :
  getToken (setToken token st) = Some token ∧
  isAuthenticated (setToken token st) = truthy token ∧
  isAuthenticated (removeToken st) = false ∧
  localStorage (removeToken st) !! "username" = None ∧
  (∀ k : string, k ≠ "jwt_token" → k ≠ "username" →
     localStorage (removeToken st) !! k = localStorage st !! k) ∧
  apiCache (setToken token st) = apiCache st ∧
  apiCache (removeToken st) = apiCache st.
Proof.
  unfold isAuthenticated, getToken, setToken, removeToken. simpl.
  rewrite lookup_insert_eq, lookup_delete_ne, !lookup_delete_eq by done.
  repeat split.
  intros k H1 H2. by rewrite !lookup_delete_ne.
Qed.

(** X5. The URL column of the cache status table shows, for the URL of any
    request [apiRequest] makes, the endpoint it was called with. *)
Theorem shortUrl_is_endpoint w (endpoint : string) o st :
  shortUrl (url (send w endpoint o st).2) = endpoint.
Proof.
  destruct (send_frame w endpoint o st) as (_ & _ & _ & ->).
  apply remove_first_prefix.
Qed.

(** A 304 lookup that misses leaves the map without the key. *)
Lemma getCachedResponse_miss now (u : string) (maxAge : Z) c :
  (getCachedResponse now u maxAge c).2 = None →
  (getCachedResponse now u maxAge c).1 = delete u c.
Proof.
  unfold getCachedResponse. destruct (c !! u) as [e|] eqn:He.
  - by destruct (expired now e maxAge).
  - intros _. simpl. by rewrite delete_id.
Qed.

(** The three ways a call ends: [fetch] rejects; a 304 finds a fresh entry;
    or the body is read, from a client whose cache has lost the entry of
    the URL if the answer was a 304. *)
Lemma apiRequest_cases w (endpoint : string) o st :
  (∃ message,
     fetch w (send w endpoint o st).2 = Rejects message ∧
     apiRequest w endpoint o st
       = connection_error message (send w endpoint o st).1) ∨
  (∃ r e,
     fetch w (send w endpoint o st).2 = Resolves r ∧ status r = 304 ∧
     apiCache (send w endpoint o st).1 !! (API_BASE_URL +:+ endpoint) = Some e ∧
     expired (t_response w) e default_maxAge = false ∧
     apiRequest w endpoint o st
       = ((send w endpoint o st).1,
          Some {| response := Synthetic200; result := data e |})) ∨
  (∃ r c1,
     fetch w (send w endpoint o st).2 = Resolves r ∧
     c1 = (if status r =? 304
           then delete (API_BASE_URL +:+ endpoint)
                  (apiCache (send w endpoint o st).1)
           else apiCache (send w endpoint o st).1) ∧
     apiRequest w endpoint o st
       = match json r with
         | inl message =>
             connection_error message (with_cache c1 (send w endpoint o st).1)
         | inr parsed =>
             on_body w endpoint o r parsed
               (with_cache c1 (send w endpoint o st).1)
         end).
Proof.
  unfold apiRequest. destruct (send w endpoint o st) as [st1 req]. simpl.
  destruct (fetch w req) as [m|r]; [left; by exists m|]. right.
  unfold receive. destruct (status r =? 304) eqn:E.
  - apply Z.eqb_eq in E.
    pose proof (getCachedResponse_miss (t_response w)
                  (API_BASE_URL +:+ endpoint) default_maxAge (apiCache st1))
      as Hmiss.
    destruct (getCachedResponse _ _ _ (apiCache st1)) as [c2 [e|]] eqn:Hl.
    + left. exists r, e. apply getCachedResponse_hit in Hl as (-> & He & Hf).
      repeat split; try done. by destruct st1.
    + right. exists r, c2. simpl in Hmiss. rewrite (Hmiss eq_refl), E.
      split; [done|]. split; [done|]. by destruct (json r).
  - right. exists r, (apiCache st1). split; [done|]. rewrite ?E.
    split; [done|]. replace (with_cache (apiCache st1) st1) with st1
      by (by destruct st1).
    by destruct (json r).
Qed.

(** X6. A call returns null exactly when it has alerted the user: after a
    non-null return the page is as it was; after a null return it has
    gained either one connection-error alert, or the session-expired alert
    followed by the switch to the login view. *)
Theorem null_return_iff_alert w (endpoint : string) o st :
  match (apiRequest w endpoint o st).2 with
  | Some _ => ui (apiRequest w endpoint o st).1 = ui st
  | None =>
      (∃ message,
         ui (apiRequest w endpoint o st).1
         = ui st ++ [Alert ("Connection error: " +:+ message) "error"]) ∨
      ui (apiRequest w endpoint o st).1
      = ui st ++ [Alert "Session expired. Please login again." "error";
                  SwitchView "login"]
  end.
Proof.
  destruct (send_frame w endpoint o st) as (_ & Hui & _ & _).
  destruct (apiRequest_cases w endpoint o st)
    as [(m & _ & ->) | [(r & e & _ & _ & _ & _ & ->) | (r & c1 & _ & _ & ->)]].
  - simpl. left. exists m. by rewrite Hui.
  - done.
  - destruct (json r) as [m|parsed].
    + simpl. left. exists m. by rewrite Hui.
    + unfold on_body. destruct (status r =? 401); simpl.
      * right. by rewrite Hui, <- app_assoc.
      * done.
Qed.

(** X7. [apiRequest] never writes to [localStorage]: it leaves it as it is,
    except on a 401 whose body parsed, where it removes the token and the
    user name. *)
Theorem localStorage_changes_only_on_401 w (endpoint : string) o st :
  localStorage (apiRequest w endpoint o st).1 = localStorage st ∨
  (∃ r parsed,
     fetch w (send w endpoint o st).2 = Resolves r ∧
     status r = 401 ∧ json r = inr parsed ∧
     localStorage (apiRequest w endpoint o st).1
     = delete "username" (delete "jwt_token" (localStorage st))).
Proof.
  destruct (send_frame w endpoint o st) as (Hls & _ & _ & _).
  destruct (apiRequest_cases w endpoint o st)
    as [(m & _ & ->) | [(r & e & _ & _ & _ & _ & ->) | (r & c1 & Hf & _ & ->)]].
  - by left.
  - by left.
  - destruct (json r) as [m|parsed] eqn:Hj; [by left|].
    unfold on_body. destruct (status r =? 401) eqn:E; simpl.
    + right. exists r, parsed. apply Z.eqb_eq in E. by rewrite Hls.
    + by left.
Qed.

(** X8. Every call issues exactly one request, whatever the cache holds:
    to the base URL followed by the endpoint, with the method and the body
    the caller gave. *)
Theorem exactly_one_request w (endpoint : string) o st :
  ∃ req,
    network (apiRequest w endpoint o st).1 = network st ++ [req] ∧
    url req = API_BASE_URL +:+ endpoint ∧
    method (config req) = method o ∧
    body (config req) = body o.
Proof.
  exists (send w endpoint o st).2.
  destruct (send_frame w endpoint o st) as (_ & _ & Hnet & Hurl).
  split; [|split; [done|]].
  - unfold apiRequest. destruct (send w endpoint o st) as [st1 req].
    simpl in *. by rewrite receive_network.
  - unfold send. destruct (is_get o); [|done].
    destruct (getCachedResponse _ _ _ _) as [c [e|]]; [|done].
    simpl. by destruct (truthy (etag e)).
Qed.

(** X9. The headers of the request: [Authorization] is the bearer token
    when a non-empty token is stored, overriding what the caller passed, and
    is what the caller passed otherwise; [Content-Type] is what the caller
    passed, or JSON by default. *)
Theorem request_headers w (endpoint : string) o st :
  headers (config (send w endpoint o st).2) !! "Authorization"
  = match getToken st with
    | Some token =>
        if truthy token then Some ("Bearer " +:+ token)
        else headers o !! "Authorization"
    | None => headers o !! "Authorization"
    end ∧
  headers (config (send w endpoint o st).2) !! "Content-Type"
  = Some (default "application/json" (headers o !! "Content-Type")).
Proof.
  assert (∀ h : gmap string string,
            match (if is_get o
                   then (getCachedResponse (t_lookup w)
                           (API_BASE_URL +:+ endpoint) default_maxAge
                           (apiCache st)).2
                   else None) with
            | Some e => if truthy (etag e)
                        then <["If-None-Match" := etag e]> h else h
            | None => h
            end !! "Authorization" = h !! "Authorization" ∧
            match (if is_get o
                   then (getCachedResponse (t_lookup w)
                           (API_BASE_URL +:+ endpoint) default_maxAge
                           (apiCache st)).2
                   else None) with
            | Some e => if truthy (etag e)
                        then <["If-None-Match" := etag e]> h else h
            | None => h
            end !! "Content-Type" = h !! "Content-Type") as Hcond.
  { intros h. destruct (if is_get o then _ else _) as [e|]; [|done].
    destruct (truthy (etag e)); [|done]. by rewrite !lookup_insert_ne. }
  rewrite send_headers.
  destruct (Hcond (headers (base_config o st))) as [-> ->].
  unfold base_config. simpl.
  assert ((headers o ∪ {["Content-Type" := "application/json"]})
            !! "Authorization" = headers o !! "Authorization") as Ha.
  { rewrite lookup_union, lookup_singleton_ne by done.
    by destruct (headers o !! "Authorization"). }
  assert ((headers o ∪ {["Content-Type" := "application/json"]})
            !! "Content-Type"
          = Some (default "application/json" (headers o !! "Content-Type")))
    as Hc.
  { rewrite lookup_union, lookup_singleton_eq.
    by destruct (headers o !! "Content-Type"). }
  destruct (getToken st) as [t|]; [|done].
  destruct (truthy t); [|done].
  by rewrite lookup_insert_eq, lookup_insert_ne.
Qed.

Lemma invalidate_lookup (endpoint : string) o c (k : string) :
  is_mutation o = true →
  invalidate endpoint o c !! k = if purged_by endpoint k then None else c !! k.
Proof.
  intros Hmut. unfold invalidate, purged_by. rewrite Hmut.
  destruct (includes endpoint "/books").
  - rewrite !clearCache_lookup.
    by destruct (includes k "/statistics"), (includes k "/books").
  - destruct (includes endpoint "/borrow-records"); [|done].
    rewrite !clearCache_lookup.
    by destruct (includes k "/statistics"), (includes k "/books"),
                (includes k "/borrow-records").
Qed.

(** A mutation answered with a parsed body and a status other than 304 and
    401: the caller gets the response, and the cache is the one before the
    call, invalidated. *)
Lemma apiRequest_mutation w (endpoint : string) o st r parsed :
  is_mutation o = true →
  fetch w (send w endpoint o st).2 = Resolves r →
  status r ≠ 304 → status r ≠ 401 → json r = inr parsed →
  (apiRequest w endpoint o st).2
    = Some {| response := Real r; result := parsed |} ∧
  apiCache (apiRequest w endpoint o st).1
    = invalidate endpoint o (apiCache st).
Proof.
  intros Hmut Hfetch H304 H401 Hj.
  pose proof (is_mutation_not_get o Hmut) as Hget.
  pose proof (send_cache w endpoint o st) as Hc. rewrite Hget in Hc.
  unfold apiRequest. destruct (send w endpoint o st) as [st1 req].
  simpl in *. rewrite Hfetch.
  rewrite receive_parsed with (parsed := parsed) by done.
  unfold on_body. destruct (status r =? 401) eqn:E401; [lia|].
  rewrite Hget, andb_false_r. simpl. by rewrite Hc.
Qed.

(** X10. The invalidation does not wait for success: a POST, PUT or DELETE
    answered with any status but 304 and 401 (a 400, a 409, a 500) and a
    body that parses hands the response to the caller and purges exactly
    the entries its endpoint selects, leaving every other entry as it
    was. *)
Theorem mutation_purges_whatever_the_status w (endpoint : string) o st r parsed :
  is_mutation o = true →
  fetch w (send w endpoint o st).2 = Resolves r →
  status r ≠ 304 → status r ≠ 401 → json r = inr parsed →
  (apiRequest w endpoint o st).2
    = Some {| response := Real r; result := parsed |} ∧
  ∀ k : string,
    apiCache (apiRequest w endpoint o st).1 !! k
    = if purged_by endpoint k then None else apiCache st !! k.
Proof.
  intros Hmut Hfetch H304 H401 Hj.
  destruct (apiRequest_mutation w endpoint o st r parsed) as [Hret Hc];
    try done.
  split; [done|]. intros k. rewrite Hc. by apply invalidate_lookup.
Qed.

(** X11. A GET changes no entry but the one of its own URL, unless it is
    answered 401. *)
Theorem get_touches_only_its_own_entry w (endpoint : string) o st :
  is_get o = true →
  (∀ r, fetch w (send w endpoint o st).2 = Resolves r → status r ≠ 401) →
  ∀ k : string, k ≠ API_BASE_URL +:+ endpoint →
    apiCache (apiRequest w endpoint o st).1 !! k = apiCache st !! k.
Proof.
  intros Hget Hno401 k Hk.
  assert (apiCache (send w endpoint o st).1 !! k = apiCache st !! k) as Hsent.
  { rewrite send_cache, Hget.
    destruct (getCachedResponse_cache (t_lookup w) (API_BASE_URL +:+ endpoint)
                default_maxAge (apiCache st)) as [-> | (e & _ & _ & ->)];
      [done|]. by rewrite lookup_delete_ne. }
  destruct (apiRequest_cases w endpoint o st)
    as [(m & _ & ->) | [(r & e & _ & _ & _ & _ & ->) | (r & c1 & Hf & Hc1 & ->)]];
    try done.
  assert (c1 !! k = apiCache st !! k) as Hc1k.
  { rewrite Hc1. destruct (status r =? 304); [|done].
    by rewrite lookup_delete_ne. }
  destruct (json r) as [m|parsed]; [done|].
  unfold on_body. pose proof (Hno401 r Hf) as H401.
  destruct (status r =? 401) eqn:E; [lia|]. simpl.
  unfold invalidate. rewrite (is_get_not_mutation o Hget).
  destruct (ok r && is_get o); [|done].
  destruct (hdr_ETag r) as [tag|]; [|done].
  destruct (truthy tag); [|done].
  unfold setCachedResponse. by rewrite lookup_insert_ne.
Qed.

(** X12. The 304 branch does not look at the method: a POST, PUT or DELETE
    answered 304 while the cache holds a fresh entry for its URL returns the
    cached payload as a success, and nothing is invalidated. *)
Theorem not_modified_skips_invalidation w (endpoint : string) o st e r :
  is_mutation o = true →
  apiCache st !! (API_BASE_URL +:+ endpoint) = Some e →
  expired (t_response w) e default_maxAge = false →
  fetch w (send w endpoint o st).2 = Resolves r →
  status r = 304 →
  (apiRequest w endpoint o st).2
    = Some {| response := Synthetic200; result := data e |} ∧
  apiCache (apiRequest w endpoint o st).1 = apiCache st.
Proof.
  intros Hmut He Hfresh Hfetch Hs.
  pose proof (is_mutation_not_get o Hmut) as Hget.
  pose proof (send_cache w endpoint o st) as Hc. rewrite Hget in Hc.
  unfold apiRequest. destruct (send w endpoint o st) as [st1 req].
  simpl in *. rewrite Hfetch. unfold receive. rewrite Hs. simpl.
  rewrite Hc, (getCachedResponse_fresh _ _ _ _ e) by done. done.
Qed.

(** Whatever a call does to the cache, it keeps it well formed. *)
Lemma apiRequest_cache_wf w (endpoint : string) o st :
  cache_wf (apiCache st) → cache_wf (apiCache (apiRequest w endpoint o st).1).
Proof.
  intros Hwf.
  assert (∀ c', c' ⊆ apiCache st → cache_wf c') as Hsub.
  { intros c' Hc' k e Hk. apply (Hwf k e).
    by apply (lookup_weaken c' (apiCache st)). }
  pose proof (send_cache_subseteq w endpoint o st) as Hsent.
  destruct (apiRequest_cases w endpoint o st)
    as [(m & _ & ->) | [(r & e & _ & _ & _ & _ & ->) | (r & c1 & Hf & Hc1 & ->)]].
  - by apply Hsub.
  - by apply Hsub.
  - assert (c1 ⊆ apiCache st) as Hc1sub.
    { rewrite Hc1. destruct (status r =? 304); [|done].
      etrans; [apply delete_subseteq|done]. }
    destruct (json r) as [m|parsed]; [by apply Hsub|].
    unfold on_body. destruct (status r =? 401); simpl.
    { apply Hsub, map_empty_subseteq. }
    intros k e Hk.
    eapply lookup_weaken in Hk; [|apply invalidate_subseteq].
    revert Hk.
    destruct (ok r && is_get o); [|by apply Hsub].
    destruct (hdr_ETag r) as [tag|]; [|by apply Hsub].
    destruct (truthy tag) eqn:Htag; [|by apply Hsub].
    unfold setCachedResponse. rewrite lookup_insert_Some.
    intros [[<- <-] | [_ Hk]]; [|by apply (Hsub c1 Hc1sub)].
    split; [|done]. apply prefix_spec. by exists endpoint.
Qed.

Lemma run_requests_cache_wf (calls : list (World Payload * string * Options)) st :
  cache_wf (apiCache st) → cache_wf (apiCache (run_requests calls st)).
Proof.
  revert st. induction calls as [|[[w ep] o] calls IH]; intros st Hwf; [done|].
  simpl. apply IH. by apply apiRequest_cache_wf.
Qed.

(** X13. Starting from an empty cache, after any sequence of calls every
    entry has a non-empty ETag and is kept under the base URL followed by
    an endpoint, which is what the cache status table shows for it. *)
Theorem cache_entries_after_any_requests
    (calls : list (World Payload * string * Options)) st (k : string) e :
  apiCache st = ∅ →
  apiCache (run_requests calls st) !! k = Some e →
  truthy (etag e) = true ∧
  k = API_BASE_URL +:+ shortUrl k ∧
  etag_shown e = String.substring 0 12 (etag e) +:+ "...".
Proof.
  intros Hempty Hk.
  assert (cache_wf (apiCache st)) as Hwf0.
  { rewrite Hempty. intros k' e' H. by rewrite lookup_empty in H. }
  destruct (run_requests_cache_wf calls st Hwf0 k e Hk) as [Hp Htag].
  apply prefix_spec in Hp as [ep ->].
  split; [done|]. split.
  - unfold shortUrl. by rewrite remove_first_prefix.
  - unfold etag_shown. by rewrite Htag.
Qed.

(** X14. Starting from an empty cache, after any sequence of calls a GET to
    a URL with an unexpired entry is always conditional: it carries the
    ETag of the entry in [If-None-Match]. *)
Theorem fresh_hit_is_always_conditional
    (calls : list (World Payload * string * Options)) st0
    w (endpoint : string) o e :
  apiCache st0 = ∅ →
  is_get o = true →
  apiCache (run_requests calls st0) !! (API_BASE_URL +:+ endpoint) = Some e →
  expired (t_lookup w) e default_maxAge = false →
  headers (config (send w endpoint o (run_requests calls st0)).2)
    !! "If-None-Match" = Some (etag e).
Proof.
  intros Hempty Hget He Hfresh.
  assert (cache_wf (apiCache st0)) as Hwf0.
  { rewrite Hempty. intros k' e' H. by rewrite lookup_empty in H. }
  destruct (run_requests_cache_wf calls st0 Hwf0 _ e He) as [_ Htag].
  rewrite send_headers, Hget.
  rewrite (getCachedResponse_fresh _ _ _ _ e) by done. cbn [fst snd].
  by rewrite Htag, lookup_insert_eq.
Qed.

(** X15. A GET is conditional only if the cache held an entry for its URL
    when it was sent, and hands out a cached payload only if the cache holds
    an unexpired entry for its URL when the answer is handled.  Sent with no
    entry (the caller passing no [If-None-Match]) it carries no
    [If-None-Match]; and handled with no unexpired entry, whatever the
    client has been through in between, any payload it returns is the parsed
    body of its own response. *)
Theorem uncached_get_returns_own_body w (endpoint : string) o st :
  is_get o = true →
  headers o !! "If-None-Match" = None →
  apiCache st !! (API_BASE_URL +:+ endpoint) = None →
  headers (config (send w endpoint o st).2) !! "If-None-Match" = None ∧
  ∀ st2 answer ret,
    (∀ e, apiCache st2 !! (API_BASE_URL +:+ endpoint) = Some e →
          expired (t_response w) e default_maxAge = true) →
    (receive w endpoint o answer st2).2 = Some ret →
    ∃ r, answer = Resolves r ∧ response ret = Real r ∧
         json r = inr (result ret).
Proof.
  intros Hget Hcaller Hnone. split.
  - rewrite send_headers, Hget, getCachedResponse_absent by done.
    cbn [fst snd]. by rewrite base_config_if_none_match.
  - intros st2 answer ret Hstale. unfold receive.
    destruct answer as [m|r]; [done|].
    assert ((if status r =? 304
             then getCachedResponse (t_response w) (API_BASE_URL +:+ endpoint)
                    default_maxAge (apiCache st2)
             else (apiCache st2, None)).2 = None) as Hmiss.
    { destruct (status r =? 304); [|done].
      unfold getCachedResponse.
      destruct (apiCache st2 !! (API_BASE_URL +:+ endpoint)) as [e|] eqn:He;
        [|done]. by rewrite (Hstale e). }
    destruct (if status r =? 304 then _ else _) as [c cached].
    simpl in Hmiss. subst cached.
    destruct (json r) as [m|parsed] eqn:Hj; [done|].
    unfold on_body. destruct (status r =? 401); [done|].
    simpl. intros [= <-]. by exists r.
Qed.

Lemma read_endpoints_selected (page bookId filter : string) :
  Forall (λ ep : string,
            includes (API_BASE_URL +:+ ep) "/borrow-records"
            || includes (API_BASE_URL +:+ ep) "/books"
            || includes (API_BASE_URL +:+ ep) "/statistics" = true)
    [ loadDashboard_endpoint; loadBooks_endpoint page; book_endpoint bookId;
      showBorrowBookForm_endpoint; loadBorrowRecords_endpoint page filter ].
Proof.
  repeat apply Forall_cons_2; [..|apply Forall_nil_2].
  - done.
  - rewrite (includes_app_r API_BASE_URL (loadBooks_endpoint page) "/books");
      [by rewrite orb_true_r|].
    apply includes_spec. by exists "", ("?page=" +:+ page +:+ "&per_page=10").
  - rewrite (includes_app_r API_BASE_URL (book_endpoint bookId) "/books");
      [by rewrite orb_true_r|].
    apply includes_spec. by exists "", ("/" +:+ bookId).
  - done.
  - rewrite (includes_app_r API_BASE_URL
               (loadBorrowRecords_endpoint page filter) "/borrow-records");
      [done|].
    apply includes_spec.
    by exists "", ("?page=" +:+ page +:+ "&per_page=10"
                   +:+ (if truthy filter then "&status=" +:+ filter else "")).
Qed.

(** X16. Returning a book purges every list the page reads: after the PUT
    to [/borrow-records/<id>/return] for a numeric identifier (answered
    with any status but 304 and 401, body parsed), the cache holds no entry
    for the statistics, for any page of books, for any single book, for the
    books of the borrow form, or for any page of borrow records. *)
Theorem return_purges_every_read
    w (recordId page bookId filter : string) o st r parsed :
  decimal recordId = true →
  is_mutation o = true →
  fetch w (send w (returnBook_endpoint recordId) o st).2 = Resolves r →
  status r ≠ 304 → status r ≠ 401 → json r = inr parsed →
  Forall (λ ep : string,
            apiCache (apiRequest w (returnBook_endpoint recordId) o st).1
              !! (API_BASE_URL +:+ ep) = None)
    [ loadDashboard_endpoint; loadBooks_endpoint page; book_endpoint bookId;
      showBorrowBookForm_endpoint; loadBorrowRecords_endpoint page filter ].
Proof.
  intros Hid Hmut Hfetch H304 H401 Hj.
  destruct (apiRequest_mutation w (returnBook_endpoint recordId) o st r parsed)
    as [_ Hc]; try done.
  destruct (returnBook_endpoint_branch recordId Hid) as [Hb Hr].
  eapply Forall_impl; [apply (read_endpoints_selected page bookId filter)|].
  intros ep Hsel. cbv beta in Hsel.
  rewrite Hc, invalidate_lookup by done.
  unfold purged_by. by rewrite Hb, Hr, Hsel.
Qed.




(** X18. No alert raised by [apiRequest] is put in the page as HTML: the
    text of a thrown error, whatever it contains, is shown as text. *)
Theorem apiRequest_alerts_are_text w (endpoint : string) o st :
  Forall (λ ev, rendered_as_html ev = false)
    (drop (length (ui st)) (ui (apiRequest w endpoint o st).1)).
Proof.
  destruct (send_frame w endpoint o st) as (_ & Hui & _ & _).
  assert (∀ m, Forall (λ ev, rendered_as_html ev = false)
                 (drop (length (ui st))
                    (ui (send w endpoint o st).1
                     ++ [Alert ("Connection error: " +:+ m) "error"]))) as Hconn.
  { intros m. rewrite Hui, drop_app_length. by repeat constructor. }
  assert (Forall (λ ev, rendered_as_html ev = false)
            (drop (length (ui st)) (ui (send w endpoint o st).1))) as Hnone.
  { rewrite Hui, drop_all. constructor. }
  destruct (apiRequest_cases w endpoint o st)
    as [(m & _ & ->) | [(r & e & _ & _ & _ & _ & ->) | (r & c1 & _ & _ & ->)]].
  - apply Hconn.
  - apply Hnone.
  - destruct (json r) as [m|parsed]; [apply Hconn|].
    unfold on_body. destruct (status r =? 401); simpl; [|apply Hnone].
    rewrite Hui, <- app_assoc, drop_app_length. by repeat constructor.
Qed.

(** X19. Creating, updating or deleting a book purges every list of books
    the page reads and the statistics: after a mutation of [/books] or of
    [/books/<id>] (answered with any status but 304 and 401, body parsed),
    the cache holds no entry for the statistics, for any page of books, for
    any single book, or for the books of the borrow form. *)
Theorem book_mutation_purges_book_reads
    w (endpoint target page bookId : string) o st r parsed :
  endpoint = "/books" ∨ endpoint = book_endpoint target →
  is_mutation o = true →
  fetch w (send w endpoint o st).2 = Resolves r →
  status r ≠ 304 → status r ≠ 401 → json r = inr parsed →
  Forall (λ ep : string,
            apiCache (apiRequest w endpoint o st).1
              !! (API_BASE_URL +:+ ep) = None)
    [ loadDashboard_endpoint; loadBooks_endpoint page; book_endpoint bookId;
      showBorrowBookForm_endpoint ].
Proof.
  intros Hep Hmut Hfetch H304 H401 Hj.
  destruct (apiRequest_mutation w endpoint o st r parsed) as [_ Hc]; try done.
  assert (includes endpoint "/books" = true) as Hb.
  { destruct Hep as [-> | ->]; [done|].
    apply includes_spec. by exists "", ("/" +:+ target). }
  assert (∀ ep : string,
            includes (API_BASE_URL +:+ ep) "/books"
            || includes (API_BASE_URL +:+ ep) "/statistics" = true →
            apiCache (apiRequest w endpoint o st).1
              !! (API_BASE_URL +:+ ep) = None) as Hgone.
  { intros ep Hsel. rewrite Hc, invalidate_lookup by done.
    unfold purged_by. by rewrite Hb, Hsel. }
  repeat apply Forall_cons_2; [..|apply Forall_nil_2]; apply Hgone.
  - done.
  - rewrite (includes_app_r API_BASE_URL (loadBooks_endpoint page) "/books");
      [done|].
    apply includes_spec. by exists "", ("?page=" +:+ page +:+ "&per_page=10").
  - rewrite (includes_app_r API_BASE_URL (book_endpoint bookId) "/books");
      [done|].
    apply includes_spec. by exists "", ("/" +:+ bookId).
  - done.
Qed.

(** X20. A successful GET whose response has no ETag stores nothing: the
    caller gets the new payload and the cache is as the lookup before the
    request left it.  An unexpired entry already cached for the URL is
    therefore untouched, with its old payload, ETag and timestamp (an
    expired one has been purged by that lookup). *)
Theorem response_without_etag_keeps_old_entry
    w (endpoint : string) o st r parsed :
  is_get o = true →
  fetch w (send w endpoint o st).2 = Resolves r →
  ok r = true → json r = inr parsed → hdr_ETag r = None →
  (apiRequest w endpoint o st).2
    = Some {| response := Real r; result := parsed |} ∧
  apiCache (apiRequest w endpoint o st).1 = apiCache (send w endpoint o st).1 ∧
  (∀ e, apiCache st !! (API_BASE_URL +:+ endpoint) = Some e →
        expired (t_lookup w) e default_maxAge = false →
        apiCache (apiRequest w endpoint o st).1 = apiCache st ∧
        apiCache (apiRequest w endpoint o st).1 !! (API_BASE_URL +:+ endpoint)
          = Some e) ∧
  (∀ e, apiCache st !! (API_BASE_URL +:+ endpoint) = Some e →
        expired (t_lookup w) e default_maxAge = true →
        apiCache (apiRequest w endpoint o st).1
          = delete (API_BASE_URL +:+ endpoint) (apiCache st)).
Proof.
  intros Hget Hfetch Hok Hj Htag.
  pose proof (ok_status r Hok) as Hrange.
  pose proof (send_cache w endpoint o st) as Hc. rewrite Hget in Hc.
  assert (apiRequest w endpoint o st
          = (with_cache (apiCache (send w endpoint o st).1)
               (send w endpoint o st).1,
             Some {| response := Real r; result := parsed |})) as Hrun.
  { unfold apiRequest. destruct (send w endpoint o st) as [st1 req].
    simpl in *. rewrite Hfetch.
    rewrite receive_parsed with (parsed := parsed) by (done || lia).
    unfold on_body. destruct (status r =? 401) eqn:E401; [lia|].
    rewrite Hok, Hget, Htag. simpl.
    unfold invalidate. by rewrite (is_get_not_mutation o Hget). }
  rewrite Hrun. simpl. split; [done|]. split; [done|]. rewrite Hc. split.
  - intros e He Hfresh.
    by rewrite (getCachedResponse_fresh _ _ _ _ e).
  - intros e He Hold.
    by rewrite (getCachedResponse_expired _ _ _ _ e).
Qed.

End ClientAtLarge.

(** A duplicate ISBN is refused with a 400: the cached book list and the
    statistics are purged all the same, the borrow records stay. *)
Lemma mutation_purges_whatever_the_status_witness :
  let w := world 1000 1001 1002
             (Resolves (reply 400 None (inr "ISBN already exists"))) in
  let out := apiRequest w "/books" post_options sample_client in
  out.2 = Some {| response := Real (reply 400 None (inr "ISBN already exists"));
                  result := "ISBN already exists" |} ∧
  ∀ k : string,
    apiCache out.1 !! k
    = if purged_by "/books" k then None else apiCache sample_client !! k.
Proof.
  apply (mutation_purges_whatever_the_status
           (world 1000 1001 1002
              (Resolves (reply 400 None (inr "ISBN already exists"))))
           "/books" post_options sample_client
           (reply 400 None (inr "ISBN already exists")) "ISBN already exists");
    try reflexivity; simpl; lia.
Defined.

(** Reading the statistics leaves the cached book list alone. *)
Lemma get_touches_only_its_own_entry_witness :
  apiCache (apiRequest
              (world 30000 30050 30051
                 (Resolves (reply 200 (Some "s2") (inr "new statistics"))))
              "/statistics" get_options sample_client).1 !! books_url
  = apiCache sample_client !! books_url.
Proof.
  apply (get_touches_only_its_own_entry
           (world 30000 30050 30051
              (Resolves (reply 200 (Some "s2") (inr "new statistics"))))
           "/statistics" get_options sample_client).
  - reflexivity.
  - intros r H. injection H as <-. simpl. lia.
  - discriminate.
Defined.

(** A PUT to the URL of the cached book list, answered 304. *)
Lemma not_modified_skips_invalidation_witness :
  let w := world 30000 30050 30051
             (Resolves (reply 304 None (inl "Unexpected end of JSON input"))) in
  let out := apiRequest w "/books?page=1&per_page=10" put_options
               sample_client in
  out.2 = Some {| response := Synthetic200; result := "books, page 1" |} ∧
  apiCache out.1 = apiCache sample_client.
Proof.
  apply (not_modified_skips_invalidation
           (world 30000 30050 30051
              (Resolves (reply 304 None (inl "Unexpected end of JSON input"))))
           "/books?page=1&per_page=10" put_options sample_client books_entry
           (reply 304 None (inl "Unexpected end of JSON input")));
    vm_compute; reflexivity.
Defined.

(** One GET of the statistics from an empty cache. *)
Lemma cache_entries_after_any_requests_witness :
  let e := {| data := "statistics"; etag := "s1"; timestamp := 1002 |} in
  truthy (etag e) = true ∧
  statistics_url = API_BASE_URL +:+ shortUrl statistics_url ∧
  etag_shown e = String.substring 0 12 (etag e) +:+ "...".
Proof.
  apply (cache_entries_after_any_requests
           [(world 1000 1001 1002
               (Resolves (reply 200 (Some "s1") (inr "statistics"))),
             "/statistics", get_options)]
           fresh_client statistics_url
           {| data := "statistics"; etag := "s1"; timestamp := 1002 |});
    vm_compute; reflexivity.
Defined.

(** The GET of the statistics that follows it, half a minute later. *)
Lemma fresh_hit_is_always_conditional_witness :
  headers (config (send (world 31000 31001 31002 (Rejects "offline"))
                     "/statistics" get_options
                     (run_requests
                        [(world 1000 1001 1002
                            (Resolves (reply 200 (Some "s1") (inr "statistics"))),
                          "/statistics", get_options)]
                        fresh_client)).2)
    !! "If-None-Match" = Some "s1".
Proof.
  apply (fresh_hit_is_always_conditional
           [(world 1000 1001 1002
               (Resolves (reply 200 (Some "s1") (inr "statistics"))),
             "/statistics", get_options)]
           fresh_client (world 31000 31001 31002 (Rejects "offline"))
           "/statistics" get_options
           {| data := "statistics"; etag := "s1"; timestamp := 1002 |});
    vm_compute; reflexivity.
Defined.

(** A client with nothing cached asks for the statistics; the answer is
    a 200. *)
Lemma uncached_get_witness :
  let w := world 2000 2001 2002
             (Resolves (reply 200 (Some "s2") (inr "statistics"))) in
  headers (config (send w "/statistics" get_options fresh_client).2)
    !! "If-None-Match" = None ∧
  ∀ st2 answer ret,
    (∀ e, apiCache st2 !! (API_BASE_URL +:+ "/statistics") = Some e →
          expired (t_response w) e default_maxAge = true) →
    (receive w "/statistics" get_options answer st2).2 = Some ret →
    ∃ r, answer = Resolves r ∧ response ret = Real r ∧
         json r = inr (result ret).
Proof.
  apply (uncached_get_returns_own_body
           (world 2000 2001 2002
              (Resolves (reply 200 (Some "s2") (inr "statistics"))))
           "/statistics" get_options fresh_client); reflexivity.
Defined.

(** Record 7 is returned. *)
Lemma return_purges_every_read_witness :
  Forall (λ ep : string,
            apiCache (apiRequest
                        (world 1000 1001 1002
                           (Resolves (reply 200 None (inr "returned"))))
                        (returnBook_endpoint "7") put_options sample_client).1
              !! (API_BASE_URL +:+ ep) = None)
    [ loadDashboard_endpoint; loadBooks_endpoint "1"; book_endpoint "3";
      showBorrowBookForm_endpoint; loadBorrowRecords_endpoint "1" "borrowed" ].
Proof.
  apply (return_purges_every_read
           (world 1000 1001 1002 (Resolves (reply 200 None (inr "returned"))))
           "7" "1" "3" "borrowed" put_options sample_client
           (reply 200 None (inr "returned")) "returned");
    try reflexivity; simpl; lia.
Defined.


(** Book 3 is deleted. *)
Lemma book_mutation_purges_book_reads_witness :
  Forall (λ ep : string,
            apiCache (apiRequest
                        (world 1000 1001 1002
                           (Resolves (reply 200 None (inr "deleted"))))
                        (book_endpoint "3")
                        {| method := Some "DELETE"; headers := ∅; body := None |}
                        sample_client).1
              !! (API_BASE_URL +:+ ep) = None)
    [ loadDashboard_endpoint; loadBooks_endpoint "1"; book_endpoint "3";
      showBorrowBookForm_endpoint ].
Proof.
  apply (book_mutation_purges_book_reads
           (world 1000 1001 1002 (Resolves (reply 200 None (inr "deleted"))))
           (book_endpoint "3") "3" "1" "3"
           {| method := Some "DELETE"; headers := ∅; body := None |}
           sample_client (reply 200 None (inr "deleted")) "deleted");
    try reflexivity; try (simpl; lia).
  by right.
Defined.

(** The statistics come back without an ETag while an entry is cached. *)
Lemma response_without_etag_witness :
  let w := world 30000 30050 30051
             (Resolves (reply 200 None (inr "new statistics"))) in
  let out := apiRequest w "/statistics" get_options sample_client in
  out.2 = Some {| response := Real (reply 200 None (inr "new statistics"));
                  result := "new statistics" |} ∧
  apiCache out.1
    = apiCache (send w "/statistics" get_options sample_client).1 ∧
  (∀ e, apiCache sample_client !! (API_BASE_URL +:+ "/statistics") = Some e →
        expired (t_lookup w) e default_maxAge = false →
        apiCache out.1 = apiCache sample_client ∧
        apiCache out.1 !! (API_BASE_URL +:+ "/statistics") = Some e) ∧
  (∀ e, apiCache sample_client !! (API_BASE_URL +:+ "/statistics") = Some e →
        expired (t_lookup w) e default_maxAge = true →
        apiCache out.1
          = delete (API_BASE_URL +:+ "/statistics") (apiCache sample_client)).
Proof.
  apply (response_without_etag_keeps_old_entry
           (world 30000 30050 30051
              (Resolves (reply 200 None (inr "new statistics"))))
           "/statistics" get_options sample_client
           (reply 200 None (inr "new statistics")) "new statistics");
    reflexivity.
Defined.
